(** * Ticketing platform: seat allocation, quota and cancellation

    A shallow embedding of [src/server.py].  The three SQL tables are finite
    maps from primary key to the remaining columns, a request runs in a
    session that holds the committed store next to the transaction's working
    copy, and the endpoints ([initialize_event], [book_ticket],
    [cancel_ticket], [get_event]) are functions from a store to an outcome
    and a store.  Requests are served one after the other: row locks
    and [skip_locked] have no effect in this setting and are not modelled.

    What the embedding takes from outside the source file:
    - identifiers are drawn by [uuid4] at row creation; the drawn value is an
      argument of the endpoint, and a draw that hits an existing primary key
      makes the store refuse the insert ([IntegrityError]);
    - an identifier sent by a client is a string in the source; the request
      records below hold the identifier it denotes ([None] where
      [uuid.UUID] raises [ValueError]); [cancel_ticket] hands its string to
      the store unparsed, and is modelled for strings that denote an
      identifier;
    - user identifiers are stored as sent (the width of the [String(255)]
      column is not modelled), and the response timestamp is left out. *)

From stdpp Require Import gmap strings list fin_maps sorting.

Set Warnings "-clear-no-such-hyp".
Local Open Scope Z_scope.

(** ** Database models (lines 24-51) *)

Abbreviation uuid := N (only parsing).

(** Row of [events]; the key is [event_id]. *)
Record Event := { total_tickets : Z }.

(** [Event()] : every column takes its default. *)
Definition Event_default : Event := {| total_tickets := 100 |}.

(** Row of [bookings]; the key is [booking_id]. *)
Record Booking := {
  event_id : uuid;
  seat_id1 : option Z;
  seat_id2 : option Z;
  user_id : string
}.

(** The store.  A row of [seats] has the composite key [(seat_id, event_id)]
    and the single further column [is_booked]. *)
Record DB := {
  events : gmap uuid Event;
  seats : gmap (Z * uuid) bool;
  bookings : gmap uuid Booking
}.

(** [Base.metadata.create_all] on an empty database. *)
Definition empty_db : DB := {| events := ∅; seats := ∅; bookings := ∅ |}.

(** ** API models (lines 54-71) *)

Record TicketBooking := {
  req_event_id : option uuid;
  req_user_id : string;
  tickets : Z
}.

(** [Field(gt=0, le=2)] *)
Definition TicketBooking_valid (b : TicketBooking) : bool :=
  (0 <? tickets b) && (tickets b <=? 2).

Record TicketCancel := { booking_id : uuid }.

Record EventResponse := {
  resp_event_id : uuid;
  resp_total_tickets : Z
}.

Record BookingResponse := {
  bresp_booking_id : uuid;
  bresp_event_id : uuid;
  bresp_user_id : string;
  bresp_tickets : Z
}.

Record CancelResponse := { cresp_booking_id : uuid }.

(** ** Failures *)

(** The [detail] of an [HTTPException], with the values the source
    interpolates into the message. *)
Inductive detail :=
| InvalidEventId
| EventNotFound (e : uuid)
| CannotBookMore (u : string) (e : uuid) (currently_booked requested : Z)
| NotEnoughTickets (available requested : Z)
| BookingNotFound (b : uuid).

Inductive exn :=
| HTTPException (status_code : Z) (d : detail)
| RequestValidationError
| IntegrityError.

(** The failure kinds of the specification. *)
Definition NotFound (x : exn) : Prop :=
  ∃ d, x = HTTPException 404 d.
Definition QuotaExceeded (held requested : Z) (x : exn) : Prop :=
  ∃ u e, x = HTTPException 400 (CannotBookMore u e held requested).
Definition InsufficientCapacity (x : exn) : Prop :=
  ∃ a r, x = HTTPException 400 (NotEnoughTickets a r).
Definition domain_error (x : exn) : Prop :=
  ∃ c d, x = HTTPException c d.

(** ** Sessions (lines 73-78)

    [get_db] opens a session and closes it when the handler is left, on every
    path.  Statements act on the working copy; [commit] makes it durable;
    closing drops what was not committed. *)

Record AsyncSession := { durable : DB; pending : DB }.

Definition M (A : Type) : Type := AsyncSession → (exn + A) * AsyncSession.

Definition ret {A} (a : A) : M A := λ s, (inr a, s).

Definition bind {A B} (m : M A) (k : A → M B) : M B :=
  λ s, match m s with
       | (inl x, s') => (inl x, s')
       | (inr a, s') => k a s'
       end.

Definition raise {A} (x : exn) : M A := λ s, (inl x, s).

Declare Scope session_scope.
Delimit Scope session_scope with session.
Notation "x <- m ;; k" := (bind m (λ x, k))
  (at level 100, m at next level, right associativity) : session_scope.
Notation "m ;; k" := (bind m (λ _, k))
  (at level 100, right associativity) : session_scope.
Local Open Scope session_scope.

(** [db.execute(select(...))] *)
Definition query {A} (q : DB → A) : M A := λ s, (inr (q (pending s)), s).

Definition modify (f : DB → DB) : M unit :=
  λ s, (inr (), {| durable := durable s; pending := f (pending s) |}).

(** [db.commit()] *)
Definition commit : M unit :=
  λ s, (inr (), {| durable := pending s; pending := pending s |}).

Definition when (b : bool) (m : M unit) : M unit := if b then m else ret ().

(** Run a handler under [Depends(get_db)] from the committed store [st]. *)
Definition with_db {A} (m : M A) (st : DB) : (exn + A) * DB :=
  let '(r, s) := m {| durable := st; pending := st |} in (r, durable s).

(** *** Inserts; the primary key must be new *)

Definition add_event (k : uuid) (row : Event) : M unit :=
  present <- query (λ db, events db !! k);;
  match present with
  | Some _ => raise IntegrityError
  | None => modify (λ db, {| events := <[k := row]> (events db);
                             seats := seats db; bookings := bookings db |})
  end.

Definition add_seat (k : Z * uuid) (is_booked : bool) : M unit :=
  present <- query (λ db, seats db !! k);;
  match present with
  | Some _ => raise IntegrityError
  | None => modify (λ db, {| events := events db;
                             seats := <[k := is_booked]> (seats db);
                             bookings := bookings db |})
  end.

Fixpoint add_all (rows : list ((Z * uuid) * bool)) : M unit :=
  match rows with
  | [] => ret ()
  | (k, b) :: rows' => add_seat k b;; add_all rows'
  end.

Definition add_booking (k : uuid) (row : Booking) : M unit :=
  present <- query (λ db, bookings db !! k);;
  match present with
  | Some _ => raise IntegrityError
  | None => modify (λ db, {| events := events db; seats := seats db;
                             bookings := <[k := row]> (bookings db) |})
  end.

(** *** Updates and deletes *)

(** [seat.is_booked = v] on a loaded row *)
Definition set_is_booked (k : Z * uuid) (v : bool) : M unit :=
  modify (λ db, {| events := events db; seats := <[k := v]> (seats db);
                   bookings := bookings db |}).

(** [delete(Booking).where(Booking.booking_id == k)] *)
Definition delete_booking (k : uuid) : M unit :=
  modify (λ db, {| events := events db; seats := seats db;
                   bookings := delete k (bookings db) |}).

(** ** initialize_event (lines 88-104) *)

(** [range(1, n + 1)] *)
Definition range1 (n : Z) : list Z := seqZ 1 n.

Definition initialize_event (new_id : uuid) : M EventResponse :=
  let new_event := Event_default in
  add_event new_id new_event;;
  add_all ((λ i, ((i, new_id), false)) <$> range1 (total_tickets new_event));;
  commit;;
  ret {| resp_event_id := new_id;
         resp_total_tickets := total_tickets new_event |}.

(** ** book_ticket (lines 106-173) *)

(** Truth value of a nullable integer column in a Python condition:
    [None] and [0] are false. *)
Definition truthy (o : option Z) : bool :=
  match o with
  | Some z => negb (z =? 0)
  | None => false
  end.

(** [select(Booking).where(event_id == e).where(user_id == u)] *)
Definition select_user_bookings (db : DB) (e : uuid) (u : string)
  : list Booking :=
  filter (λ b, event_id b = e ∧ user_id b = u) (map_to_list (bookings db)).*2.

(** [sum(1 for b in bs if b.seat_id1) + sum(1 for b in bs if b.seat_id2)] *)
Definition count_tickets (bs : list Booking) : Z :=
  Z.of_nat (length (filter (λ b, truthy (seat_id1 b) = true) bs))
  + Z.of_nat (length (filter (λ b, truthy (seat_id2 b) = true) bs)).

(** Seat number of a row of [seats] that belongs to [e] and is not booked. *)
Definition unbooked_of (e : uuid) (row : (Z * uuid) * bool) : option Z :=
  if decide (row.1.2 = e) then if row.2 then None else Some row.1.1
  else None.

(** The unbooked seats of [e], [order_by(Seat.seat_id)]. *)
Definition unbooked_seats (db : DB) (e : uuid) : list Z :=
  merge_sort Z.le (omap (unbooked_of e) (map_to_list (seats db))).

(** [select(Seat).where(and_(event_id == e, is_booked == False))
      .order_by(Seat.seat_id).limit(n)] *)
Definition select_available_seats (db : DB) (e : uuid) (n : Z) : list Z :=
  take (Z.to_nat n) (unbooked_seats db e).

(** [for seat in available_seats: seat.is_booked = True] *)
Fixpoint mark_booked (e : uuid) (available_seats : list Z) : M unit :=
  match available_seats with
  | [] => ret ()
  | s :: rest => set_is_booked (s, e) true;; mark_booked e rest
  end.

Definition book_ticket (new_id : uuid) (booking : TicketBooking)
  : M BookingResponse :=
  match req_event_id booking with
  | None => raise (HTTPException 400 InvalidEventId)
  | Some event_uuid =>
    event <- query (λ db, events db !! event_uuid);;
    match event with
    | None => raise (HTTPException 404 (EventNotFound event_uuid))
    | Some _ =>
      user_bookings <-
        query (λ db, select_user_bookings db event_uuid (req_user_id booking));;
      let current_user_tickets := count_tickets user_bookings in
      if decide (current_user_tickets + tickets booking > 2) then
        raise (HTTPException 400
                 (CannotBookMore (req_user_id booking) event_uuid
                    current_user_tickets (tickets booking)))
      else
        available_seats <-
          query (λ db, select_available_seats db event_uuid (tickets booking));;
        if decide (Z.of_nat (length available_seats) < tickets booking) then
          raise (HTTPException 400
                   (NotEnoughTickets (Z.of_nat (length available_seats))
                      (tickets booking)))
        else
          mark_booked event_uuid available_seats;;
          let new_booking :=
            {| event_id := event_uuid;
               user_id := req_user_id booking;
               seat_id1 := available_seats !! 0%nat;
               seat_id2 := available_seats !! 1%nat |} in
          add_booking new_id new_booking;;
          commit;;
          ret {| bresp_booking_id := new_id;
                 bresp_event_id := event_id new_booking;
                 bresp_user_id := user_id new_booking;
                 bresp_tickets := tickets booking |}
    end
  end.

(** ** cancel_ticket (lines 175-210) *)

(** One of the two blocks of lines 184-202: when the slot is truthy, load the
    seat it names and, if there is such a row, clear its flag. *)
Definition release (e : uuid) (slot : option Z) : M unit :=
  match slot with
  | Some s =>
    when (truthy slot)
      (seat <- query (λ db, seats db !! (s, e));;
       match seat with
       | Some _ => set_is_booked (s, e) false
       | None => ret ()
       end)
  | None => ret ()
  end.

Definition cancel_ticket (cancel : TicketCancel) : M CancelResponse :=
  booking <- query (λ db, bookings db !! booking_id cancel);;
  match booking with
  | None => raise (HTTPException 404 (BookingNotFound (booking_id cancel)))
  | Some booking =>
    let event_id := event_id booking in
    release event_id (seat_id1 booking);;
    release event_id (seat_id2 booking);;
    delete_booking (booking_id cancel);;
    commit;;
    ret {| cresp_booking_id := booking_id cancel |}
  end.

(** ** get_event (lines 212-222)

    The path parameter is handed to the store as it is; as for
    [cancel_ticket], the model takes the identifier the string denotes. *)

Definition get_event (event_id : uuid) : M EventResponse :=
  event <- query (λ db, events db !! event_id);;
  match event with
  | None => raise (HTTPException 404 (EventNotFound event_id))
  | Some event =>
    ret {| resp_event_id := event_id;
           resp_total_tickets := total_tickets event |}
  end.

(** ** The endpoints *)

Definition post_events_initialize (new_id : uuid) (st : DB)
  : (exn + EventResponse) * DB :=
  with_db (initialize_event new_id) st.

(** The body is validated against [TicketBooking] before the handler runs. *)
Definition post_tickets_book (new_id : uuid) (booking : TicketBooking)
    (st : DB) : (exn + BookingResponse) * DB :=
  if TicketBooking_valid booking then with_db (book_ticket new_id booking) st
  else (inl RequestValidationError, st).

Definition post_tickets_cancel (cancel : TicketCancel) (st : DB)
  : (exn + CancelResponse) * DB :=
  with_db (cancel_ticket cancel) st.

Definition get_events (event_id : uuid) (st : DB)
  : (exn + EventResponse) * DB :=
  with_db (get_event event_id) st.

(** ** Histories *)

Inductive request :=
| InitializeEvent (new_id : uuid)
| BookTickets (new_id : uuid) (booking : TicketBooking)
| CancelBooking (cancel : TicketCancel).

Definition step (st : DB) (r : request) : DB :=
  match r with
  | InitializeEvent new_id => (post_events_initialize new_id st).2
  | BookTickets new_id booking => (post_tickets_book new_id booking st).2
  | CancelBooking cancel => (post_tickets_cancel cancel st).2
  end.

Definition run (rs : list request) : DB := foldl step empty_db rs.

Inductive reachable : DB → Prop :=
| reachable_empty : reachable empty_db
| reachable_step st r : reachable st → reachable (step st r).

(** ** Vocabulary of the specification *)

(** The seat numbers in the populated seat slots of a booking. *)
Definition seat_refs (b : Booking) : list Z :=
  option_list (seat_id1 b) ++ option_list (seat_id2 b).

(** Number of populated seat slots of a booking. *)
Definition slots_held (b : Booking) : Z := Z.of_nat (length (seat_refs b)).

Definition sum_slots (bs : list Booking) : Z :=
  foldr (λ b acc, slots_held b + acc) 0 bs.

(** Seats held by user [u] for event [e]: the populated slots of the live
    bookings of [u] for [e], summed. *)
Definition held (st : DB) (e : uuid) (u : string) : Z :=
  sum_slots (select_user_bookings st e u).

(** Seat numbers start at one, in the rows of [seats] and in the slots of
    the bookings. *)
Definition one_based (st : DB) : Prop :=
  (∀ s e v, seats st !! (s, e) = Some v → 1 ≤ s) ∧
  (∀ k b s, bookings st !! k = Some b → s ∈ seat_refs b → 1 ≤ s).

(** The state of the store that holds between requests. *)
Record consistent (st : DB) : Prop := {
  seats_of_events : ∀ s e v,
    seats st !! (s, e) = Some v → is_Some (events st !! e) ∧ 1 ≤ s ≤ 100;
  slots_packed : ∀ k b,
    bookings st !! k = Some b →
    ∃ s1, seat_id1 b = Some s1 ∧
          (seat_id2 b = None ∨ ∃ s2, seat_id2 b = Some s2 ∧ s1 < s2);
  refs_booked : ∀ k b s,
    bookings st !! k = Some b → s ∈ seat_refs b →
    seats st !! (s, event_id b) = Some true;
  refs_disjoint : ∀ k1 k2 b1 b2 s,
    bookings st !! k1 = Some b1 → bookings st !! k2 = Some b2 →
    event_id b1 = event_id b2 → s ∈ seat_refs b1 → s ∈ seat_refs b2 →
    k1 = k2;
  booked_has_ref : ∀ s e,
    seats st !! (s, e) = Some true →
    ∃ k b, bookings st !! k = Some b ∧ event_id b = e ∧ s ∈ seat_refs b;
  within_quota : ∀ e u, held st e u ≤ 2
}.

(** ** Closed forms of the store after each endpoint *)

Definition mark_seats (e : uuid) (l : list Z) (m : gmap (Z * uuid) bool)
  : gmap (Z * uuid) bool :=
  foldl (λ m s, <[(s, e) := true]> m) m l.

Definition new_seats (e : uuid) (l : list Z) (m : gmap (Z * uuid) bool)
  : gmap (Z * uuid) bool :=
  foldl (λ m s, <[(s, e) := false]> m) m l.

Definition release_seat (e : uuid) (slot : option Z)
    (m : gmap (Z * uuid) bool) : gmap (Z * uuid) bool :=
  match slot with
  | Some s =>
    if truthy slot then
      match m !! (s, e) with
      | Some _ => <[(s, e) := false]> m
      | None => m
      end
    else m
  | None => m
  end.

Definition initialized (new_id : uuid) (st : DB) : DB :=
  {| events := <[new_id := Event_default]> (events st);
     seats := new_seats new_id (range1 100) (seats st);
     bookings := bookings st |}.

Definition booking_of (e : uuid) (u : string) (sel : list Z) : Booking :=
  {| event_id := e; seat_id1 := sel !! 0%nat; seat_id2 := sel !! 1%nat;
     user_id := u |}.

Definition booked (new_id e : uuid) (u : string) (sel : list Z) (st : DB)
  : DB :=
  {| events := events st;
     seats := mark_seats e sel (seats st);
     bookings := <[new_id := booking_of e u sel]> (bookings st) |}.

Definition cancelled (k : uuid) (b : Booking) (st : DB) : DB :=
  {| events := events st;
     seats := release_seat (event_id b) (seat_id2 b)
                (release_seat (event_id b) (seat_id1 b) (seats st));
     bookings := delete k (bookings st) |}.

(** ** Vocabulary of the claims *)

(** Live booking [k] references seat [s] of event [e]. *)
Definition references (st : DB) (k e : uuid) (s : Z) : Prop :=
  ∃ b, bookings st !! k = Some b ∧ event_id b = e ∧ s ∈ seat_refs b.

(** [assigned] lists, in ascending order, unbooked seats of [e] in [st] so
    that every unbooked seat of [e] left out has a higher number. *)
Definition lowest_unbooked (st : DB) (e : uuid) (assigned : list Z) : Prop :=
  StronglySorted Z.lt assigned ∧
  (∀ s, s ∈ assigned → seats st !! (s, e) = Some false) ∧
  (∀ s s', s ∈ assigned → seats st !! (s', e) = Some false →
           s' ∉ assigned → s < s').

(** Number of rows of [seats] that belong to [e] and are not booked. *)
Definition unbooked_count (st : DB) (e : uuid) : Z :=
  Z.of_nat (length (filter (λ row : (Z * uuid) * bool,
                              row.1.2 = e ∧ row.2 = false)
                      (map_to_list (seats st)))).

(** The operation in the words of the specification: an optional capacity,
    100 where none is given; one event of that capacity and one unbooked
    seat row for each seat number from 1 to the capacity. *)
Definition initializeEvent_spec (capacity : option Z) (new_id : uuid)
    (st : DB) : (exn + EventResponse) * DB :=
  let total := default 100 capacity in
  (inr {| resp_event_id := new_id; resp_total_tickets := total |},
   {| events := <[new_id := {| total_tickets := total |}]> (events st);
      seats := new_seats new_id (range1 total) (seats st);
      bookings := bookings st |}).

(** The seat rows of every event are those numbered from 1 to its
    [total_tickets], which is 100, and there are no other seat rows. *)
Definition dense (st : DB) : Prop :=
  (∀ e ev, events st !! e = Some ev → total_tickets ev = 100) ∧
  (∀ s e, is_Some (seats st !! (s, e)) ↔
          ∃ ev, events st !! e = Some ev ∧ 1 ≤ s ≤ total_tickets ev).

(** The seat numbers in the populated slots of the live bookings of [e]. *)
Definition event_refs (st : DB) (e : uuid) : list Z :=
  filter (λ b, event_id b = e) (map_to_list (bookings st)).*2 ≫= seat_refs.

(** ** Sample stores

    One event; alice books two seats and bob one.  In [sold_out] fifty
    users hold two seats each.  The last two stores are not reachable: the
    only booking of [dangling_store] names seat 5 of an event without seat
    rows, and [zero_store] has a seat numbered 0. *)

Definition alice2 : TicketBooking :=
  {| req_event_id := Some 7%N; req_user_id := "alice"; tickets := 2 |}.
Definition alice1 : TicketBooking :=
  {| req_event_id := Some 7%N; req_user_id := "alice"; tickets := 1 |}.
Definition bob1 : TicketBooking :=
  {| req_event_id := Some 7%N; req_user_id := "bob"; tickets := 1 |}.

Definition carol1 : TicketBooking :=
  {| req_event_id := Some 7%N; req_user_id := "carol"; tickets := 1 |}.

Definition demo_event : DB := run [InitializeEvent 7%N].
Definition demo_store : DB :=
  run [InitializeEvent 7%N; BookTickets 1%N alice2; BookTickets 2%N bob1].

Definition buyer (i : nat) : string := String (Ascii.ascii_of_nat i) EmptyString.

Definition sold_out : DB :=
  run (InitializeEvent 7%N ::
       map (λ i, BookTickets (N.of_nat i)
                   {| req_event_id := Some 7%N; req_user_id := buyer i;
                      tickets := 2 |})
         (seq 1 50)).

Definition dangling_store : DB :=
  {| events := {[ 7%N := Event_default ]};
     seats := ∅;
     bookings := {[ 1%N := {| event_id := 7%N; seat_id1 := Some 5;
                              seat_id2 := None; user_id := "alice" |} ]} |}.

Definition zero_store : DB :=
  {| events := {[ 7%N := Event_default ]};
     seats := {[ (0, 7%N) := true ]};
     bookings := {[ 1%N := {| event_id := 7%N; seat_id1 := Some 0;
                              seat_id2 := None; user_id := "alice" |} ]} |}.

(** * Lemmas *)

(** ** Sessions *)

Ltac session_norm :=
  cbn beta iota zeta delta [pending durable fst snd events seats bookings].

Lemma mark_booked_eq e l s :
  mark_booked e l s =
  (inr (), {| durable := durable s;
              pending := {| events := events (pending s);
                            seats := mark_seats e l (seats (pending s));
                            bookings := bookings (pending s) |} |}).
Proof.
  revert s. induction l as [|x l IH]; intros [d [ev se bk]]; [done|].
  cbn [mark_booked]. unfold bind, set_is_booked, modify. cbn.
  rewrite IH. done.
Qed.

Lemma add_all_inv rows s r s' :
  add_all rows s = (r, s') →
  durable s' = durable s ∧
  match r with
  | inl x => x = IntegrityError
  | inr _ =>
    events (pending s') = events (pending s) ∧
    bookings (pending s') = bookings (pending s) ∧
    seats (pending s') =
      foldl (λ m row, <[row.1 := row.2]> m) (seats (pending s)) rows
  end.
Proof.
  revert s. induction rows as [|[k b] rows IH]; intros s Hrun.
  - cbn in Hrun. unfold ret in Hrun. by simplify_eq.
  - cbn [add_all] in Hrun. unfold bind at 1 in Hrun.
    unfold add_seat, bind, query, raise, modify in Hrun.
    destruct (seats (pending s) !! k) eqn:Hk.
    + by simplify_eq.
    + apply IH in Hrun as [Hd Hr]. split; [done|].
      destruct r; [done|]. cbn in Hr. done.
Qed.

Lemma add_all_fresh rows s :
  NoDup rows.*1 →
  (∀ row, row ∈ rows → seats (pending s) !! row.1 = None) →
  ∃ s', add_all rows s = (inr (), s').
Proof.
  revert s. induction rows as [|[k b] rows IH]; intros s Hnd Hfresh.
  - by eexists.
  - cbn [add_all]. unfold bind at 1.
    unfold add_seat, bind, query, raise, modify.
    pose proof (Hfresh (k, b) ltac:(left)) as Hkb. cbn in Hkb.
    rewrite Hkb. cbn in Hnd. apply NoDup_cons in Hnd as [Hk Hnd].
    apply IH; [done|]. intros row Hrow. cbn.
    rewrite lookup_insert_ne; [apply Hfresh; by right|].
    intros ->. apply Hk. apply list_elem_of_fmap. by exists row.
Qed.

(** ** The endpoints in closed form *)

Lemma post_tickets_book_eq new_id booking st :
  post_tickets_book new_id booking st =
  if TicketBooking_valid booking then
    match req_event_id booking with
    | None => (inl (HTTPException 400 InvalidEventId), st)
    | Some e =>
      match events st !! e with
      | None => (inl (HTTPException 404 (EventNotFound e)), st)
      | Some _ =>
        let n := count_tickets (select_user_bookings st e (req_user_id booking)) in
        if decide (n + tickets booking > 2) then
          (inl (HTTPException 400
                  (CannotBookMore (req_user_id booking) e n (tickets booking))),
           st)
        else
          let sel := select_available_seats st e (tickets booking) in
          if decide (Z.of_nat (length sel) < tickets booking) then
            (inl (HTTPException 400
                    (NotEnoughTickets (Z.of_nat (length sel)) (tickets booking))),
             st)
          else
            match bookings st !! new_id with
            | Some _ => (inl IntegrityError, st)
            | None =>
              (inr {| bresp_booking_id := new_id; bresp_event_id := e;
                      bresp_user_id := req_user_id booking;
                      bresp_tickets := tickets booking |},
               booked new_id e (req_user_id booking) sel st)
            end
      end
    end
  else (inl RequestValidationError, st).
Proof.
  unfold post_tickets_book.
  destruct (TicketBooking_valid booking); [|reflexivity].
  unfold with_db, book_ticket.
  destruct (req_event_id booking) as [e|]; [|reflexivity].
  unfold bind, query, raise. session_norm.
  destruct (events st !! e); [|reflexivity]. session_norm.
  case_decide; [reflexivity|]. session_norm.
  case_decide; [reflexivity|]. session_norm.
  rewrite mark_booked_eq. unfold add_booking, bind, query, raise, modify.
  session_norm.
  destruct (bookings st !! new_id); reflexivity.
Qed.

Lemma release_eq e slot s :
  release e slot s =
  (inr (), {| durable := durable s;
              pending := {| events := events (pending s);
                            seats := release_seat e slot (seats (pending s));
                            bookings := bookings (pending s) |} |}).
Proof.
  destruct s as [d [ev se bk]]. unfold release, release_seat.
  destruct slot as [z|]; [|done].
  destruct (truthy (Some z)); [|done].
  unfold when, bind, query, set_is_booked, modify, ret. cbn.
  destruct (se !! (z, e)); done.
Qed.

Lemma post_tickets_cancel_eq cancel st :
  post_tickets_cancel cancel st =
  match bookings st !! booking_id cancel with
  | None =>
    (inl (HTTPException 404 (BookingNotFound (booking_id cancel))), st)
  | Some b =>
    (inr {| cresp_booking_id := booking_id cancel |},
     cancelled (booking_id cancel) b st)
  end.
Proof.
  unfold post_tickets_cancel, with_db, cancel_ticket.
  unfold bind at 1. unfold query at 1. session_norm.
  destruct (bookings st !! booking_id cancel) as [b|]; [|reflexivity].
  unfold bind. rewrite !release_eq. session_norm. reflexivity.
Qed.

Lemma new_seats_eq e l m :
  foldl (λ m row, <[row.1 := row.2]> m) m ((λ i : Z, ((i, e), false)) <$> l)
  = new_seats e l m.
Proof. revert m. induction l as [|x l IH]; intros m; [done|]. cbn. apply IH. Qed.

Lemma post_events_initialize_cases new_id st :
  post_events_initialize new_id st = (inl IntegrityError, st) ∨
  post_events_initialize new_id st =
    (inr {| resp_event_id := new_id; resp_total_tickets := 100 |},
     initialized new_id st).
Proof.
  unfold post_events_initialize, with_db, initialize_event.
  cbn zeta. unfold bind at 1. unfold add_event, bind, query, raise, modify.
  cbn [pending durable].
  destruct (events st !! new_id); [by left|].
  match goal with |- context [add_all ?rows ?s] =>
    destruct (add_all rows s) as [r s'] eqn:Hrun end.
  apply add_all_inv in Hrun as [Hd Hr]. cbn in Hd.
  destruct r as [x|[]].
  - left. cbn. by subst.
  - right. unfold commit, ret. cbn. destruct Hr as (Hev & Hbk & Hse).
    cbn in *. rewrite new_seats_eq in Hse. unfold initialized.
    destruct s' as [d' [ev' se' bk']]. cbn in *. by subst.
Qed.

Lemma post_events_initialize_fresh new_id st :
  events st !! new_id = None →
  (∀ i, seats st !! (i, new_id) = None) →
  post_events_initialize new_id st =
    (inr {| resp_event_id := new_id; resp_total_tickets := 100 |},
     initialized new_id st).
Proof.
  intros Hev Hse.
  destruct (post_events_initialize_cases new_id st) as [H|H]; [|done].
  exfalso. revert H.
  unfold post_events_initialize, with_db, initialize_event.
  cbn zeta. unfold bind at 1. unfold add_event, bind, query, raise, modify.
  cbn [pending durable]. rewrite Hev.
  match goal with |- context [add_all ?rows ?s] =>
    destruct (add_all_fresh rows s) as [s' Hs'] end.
  - rewrite <- list_fmap_compose. apply NoDup_fmap_2; [|apply NoDup_seqZ].
    intros x y. cbn. by intros [= ->].
  - intros row (i & -> & _)%list_elem_of_fmap. cbn. apply Hse.
  - rewrite Hs'. done.
Qed.

(** ** Seat maps *)

Lemma lookup_mark_seats e l m s e' :
  mark_seats e l m !! (s, e') =
  if decide (e' = e ∧ s ∈ l) then Some true else m !! (s, e').
Proof.
  unfold mark_seats. revert m. induction l as [|x l IH]; intros m; cbn.
  - case_decide as H; [|done]. destruct H as [_ H]. by apply elem_of_nil in H.
  - rewrite IH. destruct (decide (e' = e ∧ s ∈ l)) as [[-> Hin]|Hn].
    + rewrite decide_True; [done|]. split; [done|]. by right.
    + destruct (decide ((x, e) = (s, e'))) as [[= -> ->]|Hne].
      * rewrite lookup_insert_eq, decide_True; [done|]. split; [done|]. by left.
      * rewrite lookup_insert_ne by done. case_decide as H; [|done].
        destruct H as [-> [->|Hin]%elem_of_cons]; [done|]. by destruct Hn.
Qed.

Lemma lookup_new_seats e l m s e' :
  new_seats e l m !! (s, e') =
  if decide (e' = e ∧ s ∈ l) then Some false else m !! (s, e').
Proof.
  unfold new_seats. revert m. induction l as [|x l IH]; intros m; cbn.
  - case_decide as H; [|done]. destruct H as [_ H]. by apply elem_of_nil in H.
  - rewrite IH. destruct (decide (e' = e ∧ s ∈ l)) as [[-> Hin]|Hn].
    + rewrite decide_True; [done|]. split; [done|]. by right.
    + destruct (decide ((x, e) = (s, e'))) as [[= -> ->]|Hne].
      * rewrite lookup_insert_eq, decide_True; [done|]. split; [done|]. by left.
      * rewrite lookup_insert_ne by done. case_decide as H; [|done].
        destruct H as [-> [->|Hin]%elem_of_cons]; [done|]. by destruct Hn.
Qed.

Lemma lookup_release_seat e slot m s e' :
  release_seat e slot m !! (s, e') =
  if decide (e' = e ∧ slot = Some s ∧ s ≠ 0 ∧ is_Some (m !! (s, e')))
  then Some false else m !! (s, e').
Proof.
  unfold release_seat. destruct slot as [z|].
  - cbn [truthy]. destruct (Z.eqb_spec z 0) as [->|Hz]; cbn [negb].
    + case_decide as H; [|done]. destruct H as (_ & [= <-] & H & _). done.
    + destruct (m !! (z, e)) as [v|] eqn:Hm.
      * destruct (decide ((z, e) = (s, e'))) as [[= -> ->]|Hne].
        -- rewrite lookup_insert_eq, decide_True; [done|].
           rewrite Hm. eauto.
        -- rewrite lookup_insert_ne by done. case_decide as H; [|done].
           destruct H as (-> & [= ->] & _). done.
      * case_decide as H; [|done]. destruct H as (-> & [= ->] & _ & [v Hv]).
        congruence.
  - case_decide as H; [|done]. by destruct H as (_ & ? & _).
Qed.

(** ** Seat selection *)

Lemma unbooked_of_Some e row s :
  unbooked_of e row = Some s ↔ row = ((s, e), false).
Proof.
  unfold unbooked_of. destruct row as [[s' e'] v]. cbn. split.
  - case_decide; [|done]. destruct v; [done|]. intros [= ->]. by subst.
  - intros [= -> -> ->]. by rewrite decide_True.
Qed.

Lemma NoDup_omap_inj {A B} (f : A → option B) (l : list A) :
  (∀ x y z, f x = Some z → f y = Some z → x = y) →
  NoDup l → NoDup (omap f l).
Proof.
  intros Hinj. induction 1 as [|x l Hx Hnd IH]; cbn; [constructor|].
  destruct (f x) as [z|] eqn:Hfx; [|done].
  constructor; [|done].
  intros (y & Hy & Hfy)%list_elem_of_omap.
  by rewrite (Hinj x y z Hfx Hfy) in Hx.
Qed.

Lemma StronglySorted_le_lt (l : list Z) :
  NoDup l → StronglySorted Z.le l → StronglySorted Z.lt l.
Proof.
  induction 2 as [|x l Hs IH Hall]; [constructor|].
  apply NoDup_cons in H as [Hx Hnd]. constructor; [by apply IH|].
  apply Forall_forall. intros y Hy.
  rewrite Forall_forall in Hall. specialize (Hall y Hy).
  assert (x ≠ y) by (by intros ->). lia.
Qed.

Section selection.

Context (st : DB) (e : uuid).

Lemma elem_of_unbooked_seats s :
  s ∈ unbooked_seats st e ↔ seats st !! (s, e) = Some false.
Proof.
  unfold unbooked_seats. rewrite merge_sort_Permutation, list_elem_of_omap.
  split.
  - intros (row & Hrow & ->%unbooked_of_Some).
    by apply elem_of_map_to_list in Hrow.
  - intros H. exists ((s, e), false). split.
    + by apply elem_of_map_to_list.
    + by apply unbooked_of_Some.
Qed.

Lemma NoDup_unbooked_seats : NoDup (unbooked_seats st e).
Proof.
  unfold unbooked_seats. rewrite merge_sort_Permutation.
  apply NoDup_omap_inj; [|apply NoDup_map_to_list].
  intros x y z ->%unbooked_of_Some ->%unbooked_of_Some. done.
Qed.

Lemma unbooked_seats_ascending :
  StronglySorted Z.lt (unbooked_seats st e).
Proof.
  apply StronglySorted_le_lt; [apply NoDup_unbooked_seats|].
  unfold unbooked_seats. apply StronglySorted_merge_sort; apply _.
Qed.

Lemma select_available_seats_prefix n :
  ∃ rest, unbooked_seats st e = select_available_seats st e n ++ rest.
Proof.
  exists (drop (Z.to_nat n) (unbooked_seats st e)).
  unfold select_available_seats. by rewrite take_drop.
Qed.

Lemma elem_of_select_available_seats n s :
  s ∈ select_available_seats st e n → seats st !! (s, e) = Some false.
Proof.
  intros H. apply elem_of_unbooked_seats.
  destruct (select_available_seats_prefix n) as [rest ->].
  apply elem_of_app. by left.
Qed.

Lemma select_available_seats_ascending n :
  StronglySorted Z.lt (select_available_seats st e n).
Proof.
  pose proof unbooked_seats_ascending as H.
  destruct (select_available_seats_prefix n) as [rest Hrest].
  rewrite Hrest in H. by apply StronglySorted_app_1_l in H.
Qed.

(** A seat left unbooked and not selected lies above every selected one. *)
Lemma select_available_seats_lowest n s s' :
  s ∈ select_available_seats st e n →
  seats st !! (s', e) = Some false →
  s' ∉ select_available_seats st e n →
  s < s'.
Proof.
  intros Hs Hs' Hnot.
  pose proof unbooked_seats_ascending as H.
  apply elem_of_unbooked_seats in Hs'.
  destruct (select_available_seats_prefix n) as [rest Hrest].
  rewrite Hrest in H, Hs'.
  apply elem_of_app in Hs' as [?|Hs']; [done|].
  by apply (StronglySorted_app_1_elem_of _ _ _ _ _ H).
Qed.

Lemma length_select_available_seats n :
  length (select_available_seats st e n) =
  Nat.min (Z.to_nat n) (length (unbooked_seats st e)).
Proof. unfold select_available_seats. apply length_take. Qed.

End selection.

(** ** Counting held seats *)

Lemma elem_of_select_user_bookings st e u b :
  b ∈ select_user_bookings st e u ↔
  (∃ k, bookings st !! k = Some b) ∧ event_id b = e ∧ user_id b = u.
Proof.
  unfold select_user_bookings.
  rewrite list_elem_of_filter, list_elem_of_fmap. split.
  - intros [[? ?] ([k b'] & -> & Hkb)]. cbn in *.
    apply elem_of_map_to_list in Hkb. eauto.
  - intros ([k Hk] & ? & ?). split; [done|]. exists (k, b). split; [done|].
    by apply elem_of_map_to_list.
Qed.

Lemma select_user_bookings_insert st st' k b e u :
  bookings st !! k = None →
  bookings st' = <[k := b]> (bookings st) →
  select_user_bookings st' e u ≡ₚ
  (if decide (event_id b = e ∧ user_id b = u) then [b] else [])
  ++ select_user_bookings st e u.
Proof.
  intros Hk Hst'. unfold select_user_bookings.
  rewrite Hst', (map_to_list_insert _ _ _ Hk).
  rewrite fmap_cons, filter_cons. cbn [snd]. by case_decide.
Qed.

Lemma select_user_bookings_delete st st' k b e u :
  bookings st !! k = Some b →
  bookings st' = delete k (bookings st) →
  select_user_bookings st e u ≡ₚ
  (if decide (event_id b = e ∧ user_id b = u) then [b] else [])
  ++ select_user_bookings st' e u.
Proof.
  intros Hk Hst'. unfold select_user_bookings.
  rewrite Hst', <- (map_to_list_delete _ _ _ Hk).
  rewrite fmap_cons, filter_cons. cbn [snd]. by case_decide.
Qed.

Lemma sum_slots_app bs1 bs2 :
  sum_slots (bs1 ++ bs2) = sum_slots bs1 + sum_slots bs2.
Proof.
  unfold sum_slots. induction bs1 as [|b bs1 IH]; cbn; [done|]. lia.
Qed.

#[local] Instance sum_slots_Permutation :
  Proper (Permutation ==> eq) sum_slots.
Proof.
  unfold sum_slots. induction 1; cbn; lia.
Qed.

Lemma slots_held_bounds b : 0 ≤ slots_held b ≤ 2.
Proof.
  unfold slots_held, seat_refs.
  destruct (seat_id1 b), (seat_id2 b); cbn; lia.
Qed.

Lemma sum_slots_nonneg bs : 0 ≤ sum_slots bs.
Proof.
  unfold sum_slots. induction bs as [|b bs IH]; cbn; [done|].
  pose proof (slots_held_bounds b). lia.
Qed.

Lemma held_insert st st' k b e u :
  bookings st !! k = None →
  bookings st' = <[k := b]> (bookings st) →
  held st' e u =
  (if decide (event_id b = e ∧ user_id b = u) then slots_held b else 0)
  + held st e u.
Proof.
  intros Hk Hst'. unfold held.
  rewrite (select_user_bookings_insert st st' k b e u Hk Hst'), sum_slots_app.
  case_decide; cbn; lia.
Qed.

Lemma held_delete st st' k b e u :
  bookings st !! k = Some b →
  bookings st' = delete k (bookings st) →
  held st e u =
  (if decide (event_id b = e ∧ user_id b = u) then slots_held b else 0)
  + held st' e u.
Proof.
  intros Hk Hst'. unfold held.
  rewrite (select_user_bookings_delete st st' k b e u Hk Hst'), sum_slots_app.
  case_decide; cbn; lia.
Qed.

Lemma held_same_bookings st st' e u :
  bookings st' = bookings st → held st' e u = held st e u.
Proof. intros H. unfold held, select_user_bookings. by rewrite H. Qed.

(** The handler counts truthy slots; where no slot holds the number zero
    that is the number of populated slots. *)
Lemma count_tickets_sum_slots bs :
  (∀ b s, b ∈ bs → s ∈ seat_refs b → s ≠ 0) →
  count_tickets bs = sum_slots bs.
Proof.
  unfold count_tickets, sum_slots.
  induction bs as [|b bs IH]; intros Hnz; [done|].
  rewrite !filter_cons. cbn [foldr].
  rewrite <- IH by (intros b' s Hb'; apply Hnz; by right).
  assert (H1 : ∀ s, seat_id1 b = Some s → s ≠ 0).
  { intros s Hs. apply (Hnz b s); [by left|].
    unfold seat_refs. rewrite Hs. by left. }
  assert (H2 : ∀ s, seat_id2 b = Some s → s ≠ 0).
  { intros s Hs. apply (Hnz b s); [by left|].
    unfold seat_refs. rewrite Hs. apply elem_of_app. right. by left. }
  unfold slots_held, seat_refs.
  destruct (seat_id1 b) as [s1|], (seat_id2 b) as [s2|]; cbn [truthy].
  all: try (specialize (H1 _ eq_refl); apply Z.eqb_neq in H1; rewrite H1).
  all: try (specialize (H2 _ eq_refl); apply Z.eqb_neq in H2; rewrite H2).
  all: cbn; repeat case_decide; try done; cbn; lia.
Qed.

Lemma count_tickets_held st e u :
  one_based st →
  count_tickets (select_user_bookings st e u) = held st e u.
Proof.
  intros [_ Hone]. apply count_tickets_sum_slots.
  intros b s ([k Hk] & _)%elem_of_select_user_bookings Hs.
  specialize (Hone k b s Hk Hs). lia.
Qed.

(** ** Shape of a selection of one or two seats *)

Lemma seat_refs_booking_of e u sel :
  (length sel ≤ 2)%nat → seat_refs (booking_of e u sel) = sel.
Proof.
  destruct sel as [|s1 [|s2 [|s3 sel]]]; cbn; intros; try done; lia.
Qed.

Lemma select_available_seats_length st e n :
  0 < n ≤ 2 →
  ¬ Z.of_nat (length (select_available_seats st e n)) < n →
  Z.of_nat (length (select_available_seats st e n)) = n.
Proof.
  intros Hn Hlen. rewrite length_select_available_seats in *. lia.
Qed.

Lemma lookup_cancelled_seats k b st s e :
  seats (cancelled k b st) !! (s, e) =
  if decide (e = event_id b ∧ s ∈ seat_refs b ∧ s ≠ 0
             ∧ is_Some (seats st !! (s, e)))
  then Some false else seats st !! (s, e).
Proof.
  unfold cancelled. cbn [seats]. rewrite !lookup_release_seat.
  assert (Href : s ∈ seat_refs b ↔ seat_id1 b = Some s ∨ seat_id2 b = Some s).
  { unfold seat_refs. rewrite elem_of_app.
    destruct (seat_id1 b), (seat_id2 b); cbn;
      rewrite ?list_elem_of_singleton, ?elem_of_nil; naive_solver. }
  repeat case_decide; try done; exfalso; naive_solver.
Qed.

(** ** The state between requests *)

Lemma consistent_one_based st : consistent st → one_based st.
Proof.
  intros C. split.
  - intros s e v H. apply (seats_of_events st C) in H. lia.
  - intros k b s Hk Hs. pose proof (refs_booked st C k b s Hk Hs) as H.
    apply (seats_of_events st C) in H. lia.
Qed.

Lemma consistent_empty : consistent empty_db.
Proof.
  split; cbn; try (intros; simplify_map_eq; fail).
  intros e u. unfold held, select_user_bookings. cbn.
  by rewrite map_to_list_empty.
Qed.

Lemma consistent_initialized new_id st :
  consistent st → events st !! new_id = None →
  consistent (initialized new_id st).
Proof.
  intros C Hnew.
  assert (Hfresh : ∀ s v, seats st !! (s, new_id) = Some v → False).
  { intros s v [[x Hx] _]%(seats_of_events st C). congruence. }
  split; unfold initialized; cbn [events seats bookings].
  - intros s e v. rewrite lookup_new_seats. case_decide as H.
    + destruct H as [-> H]. unfold range1 in H. apply elem_of_seqZ in H.
      intros _. rewrite lookup_insert_eq. split; [eauto|lia].
    + intros [[x Hx] ?]%(seats_of_events st C). split; [|done].
      destruct (decide (new_id = e)) as [->|]; [congruence|].
      rewrite lookup_insert_ne by done. eauto.
  - apply (slots_packed st C).
  - intros k b s Hk Hs. rewrite lookup_new_seats.
    pose proof (refs_booked st C k b s Hk Hs) as Hb.
    case_decide as H; [|done]. destruct H as [He _]. rewrite He in Hb.
    by destruct (Hfresh _ _ Hb).
  - apply (refs_disjoint st C).
  - intros s e. rewrite lookup_new_seats. case_decide; [done|].
    apply (booked_has_ref st C).
  - intros e u. rewrite (held_same_bookings st); [apply (within_quota st C)|done].
Qed.

Lemma consistent_booked new_id e u n st :
  consistent st →
  is_Some (events st !! e) →
  0 < n ≤ 2 →
  ¬ count_tickets (select_user_bookings st e u) + n > 2 →
  ¬ Z.of_nat (length (select_available_seats st e n)) < n →
  bookings st !! new_id = None →
  consistent (booked new_id e u (select_available_seats st e n) st).
Proof.
  intros C Hev Hn Hquota Hlen Hnew.
  pose proof (select_available_seats_length st e n Hn Hlen) as Hlen'.
  set (sel := select_available_seats st e n) in *.
  assert (Hrefs : seat_refs (booking_of e u sel) = sel).
  { apply seat_refs_booking_of. lia. }
  assert (Hfree : ∀ s, s ∈ sel → seats st !! (s, e) = Some false).
  { intros s. apply elem_of_select_available_seats. }
  pose proof (select_available_seats_ascending st e n) as Hasc.
  fold sel in Hasc.
  split; unfold booked; cbn [events seats bookings].
  - intros s e' v. rewrite lookup_mark_seats. case_decide as H.
    + destruct H as [-> H]. intros _.
      apply (seats_of_events st C _ _ _ (Hfree s H)).
    + apply (seats_of_events st C).
  - intros k b. destruct (decide (new_id = k)) as [<-|Hne].
    + rewrite lookup_insert_eq. intros [= <-]. cbn.
      destruct sel as [|s1 [|s2 rest]]; cbn in *; [lia| |].
      * exists s1. eauto.
      * exists s1. split; [done|]. right. exists s2. split; [done|].
        apply StronglySorted_inv in Hasc as [_ Hall].
        by apply Forall_cons in Hall as [? _].
    + rewrite lookup_insert_ne by done. apply (slots_packed st C).
  - intros k b s. rewrite lookup_mark_seats.
    destruct (decide (new_id = k)) as [<-|Hne].
    + rewrite lookup_insert_eq. intros [= <-]. rewrite Hrefs. cbn. intros Hs.
      by rewrite decide_True.
    + rewrite lookup_insert_ne by done. intros Hk Hs.
      pose proof (refs_booked st C k b s Hk Hs) as Hb.
      by case_decide.
  - intros k1 k2 b1 b2 s.
    destruct (decide (new_id = k1)) as [<-|Hne1];
      destruct (decide (new_id = k2)) as [<-|Hne2]; [done| | |].
    + rewrite lookup_insert_eq, lookup_insert_ne by done.
      intros [= <-] Hk2. rewrite Hrefs. cbn. intros He Hs1 Hs2.
      pose proof (refs_booked st C _ _ _ Hk2 Hs2) as Hb.
      rewrite <- He, (Hfree s Hs1) in Hb. done.
    + rewrite lookup_insert_eq, lookup_insert_ne by done.
      intros Hk1 [= <-]. rewrite Hrefs. cbn. intros He Hs1 Hs2.
      pose proof (refs_booked st C _ _ _ Hk1 Hs1) as Hb.
      rewrite He, (Hfree s Hs2) in Hb. done.
    + rewrite !lookup_insert_ne by done. apply (refs_disjoint st C).
  - intros s e'. rewrite lookup_mark_seats. case_decide as H.
    + destruct H as [-> H]. intros _. exists new_id, (booking_of e u sel).
      rewrite lookup_insert_eq, Hrefs. done.
    + intros (k & b & Hk & Hb)%(booked_has_ref st C). exists k, b.
      split; [|done]. rewrite lookup_insert_ne; [done|]. congruence.
  - intros e' u'.
    erewrite (held_insert st _ new_id (booking_of e u sel) e' u' Hnew);
      [|reflexivity].
    pose proof (within_quota st C e' u') as Hq.
    case_decide as H; [|lia]. cbn in H. destruct H as [<- <-].
    rewrite (count_tickets_held st e u (consistent_one_based st C)) in Hquota.
    unfold slots_held. rewrite Hrefs. lia.
Qed.

Lemma consistent_cancelled k b st :
  consistent st → bookings st !! k = Some b →
  consistent (cancelled k b st).
Proof.
  intros C Hk.
  split.
  - intros s e v. rewrite lookup_cancelled_seats. case_decide as H.
    + destruct H as (_ & _ & _ & [v' Hv']). intros _.
      apply (seats_of_events st C _ _ _ Hv').
    + apply (seats_of_events st C).
  - intros k' b'. cbn. intros [_ H]%lookup_delete_Some.
    apply (slots_packed st C _ _ H).
  - intros k' b' s. cbn [bookings cancelled].
    intros [Hne H]%lookup_delete_Some Hs.
    rewrite lookup_cancelled_seats.
    pose proof (refs_booked st C _ _ _ H Hs) as Hb.
    case_decide as Hd; [|done]. destruct Hd as (He & Hin & _).
    destruct Hne. apply (refs_disjoint st C k k' b b' s); done.
  - intros k1 k2 b1 b2 s. cbn [bookings cancelled].
    intros [_ H1]%lookup_delete_Some [_ H2]%lookup_delete_Some.
    apply (refs_disjoint st C); done.
  - intros s e. rewrite lookup_cancelled_seats. case_decide as Hd; [done|].
    intros Hb. destruct (booked_has_ref st C _ _ Hb) as (k' & b' & Hk' & He & Hs).
    exists k', b'. split; [|done]. cbn. apply lookup_delete_Some.
    split; [|done]. intros <-. simplify_eq. destruct Hd.
    pose proof (seats_of_events st C _ _ _ Hb) as [_ Hrange].
    split_and!; [done|done|lia|eauto].
  - intros e u.
    pose proof (held_delete st (cancelled k b st) k b e u Hk eq_refl) as H.
    pose proof (within_quota st C e u). pose proof (slots_held_bounds b).
    case_decide; lia.
Qed.

Lemma post_events_initialize_taken new_id st :
  is_Some (events st !! new_id) →
  post_events_initialize new_id st = (inl IntegrityError, st).
Proof.
  intros [ev Hev].
  unfold post_events_initialize, with_db, initialize_event.
  cbn zeta. unfold bind at 1. unfold add_event, bind, query, raise.
  session_norm. by rewrite Hev.
Qed.

Lemma step_consistent st r : consistent st → consistent (step st r).
Proof.
  intros C. destruct r as [new_id|new_id booking|cancel]; cbn [step].
  - destruct (events st !! new_id) as [ev|] eqn:Hev.
    + by rewrite post_events_initialize_taken by eauto.
    + destruct (post_events_initialize_cases new_id st) as [-> | ->];
        [done|]. by apply consistent_initialized.
  - rewrite post_tickets_book_eq.
    destruct (TicketBooking_valid booking) eqn:Hvalid; [|done].
    destruct (req_event_id booking) as [e|]; [|done].
    destruct (events st !! e) as [ev|] eqn:Hev; [|done]. cbn zeta.
    case_decide; [done|]. case_decide; [done|].
    destruct (bookings st !! new_id) eqn:Hnew; [done|]. cbn [snd].
    apply consistent_booked; eauto.
    unfold TicketBooking_valid in Hvalid. lia.
  - rewrite post_tickets_cancel_eq.
    destruct (bookings st !! booking_id cancel) as [b|] eqn:Hb; [|done].
    by apply consistent_cancelled.
Qed.

Lemma reachable_consistent st : reachable st → consistent st.
Proof.
  induction 1; [apply consistent_empty|by apply step_consistent].
Qed.

Lemma reachable_run rs : reachable (run rs).
Proof.
  unfold run. induction rs as [|r rs IH] using rev_ind; [constructor|].
  rewrite foldl_app. cbn. by constructor.
Qed.

Lemma reachable_one_based st : reachable st → one_based st.
Proof. intros H. by apply consistent_one_based, reachable_consistent. Qed.

Example demo_bookings :
  map_to_list (bookings demo_store) ≡ₚ
  [(1%N, {| event_id := 7%N; seat_id1 := Some 1; seat_id2 := Some 2;
            user_id := "alice" |});
   (2%N, {| event_id := 7%N; seat_id1 := Some 3; seat_id2 := None;
            user_id := "bob" |})].
Proof. vm_compute. apply Permutation_swap. Qed.

Example demo_next_unbooked : take 3 (unbooked_seats demo_store 7%N) = [4; 5; 6].
Proof. vm_compute. reflexivity. Qed.

(** * The claims *)

(** C1.  No double booking: in every state reached by a sequence of
    initialise, book and cancel requests, no seat of an event is in the
    populated slots of two distinct live bookings, and the [is_booked] flag
    of a seat row is true exactly when some live booking references it. *)
Theorem no_double_booking st :
  reachable st →
  (∀ k1 k2 e s, references st k1 e s → references st k2 e s → k1 = k2) ∧
  (∀ s e v, seats st !! (s, e) = Some v →
            (v = true ↔ ∃ k, references st k e s)).
Proof.
  intros C%reachable_consistent. split.
  - intros k1 k2 e s (b1 & Hk1 & He1 & Hs1) (b2 & Hk2 & He2 & Hs2).
    apply (refs_disjoint st C k1 k2 b1 b2 s); congruence.
  - intros s e v Hv. split.
    + intros ->. destruct (booked_has_ref st C s e Hv) as (k & b & ?).
      by exists k, b.
    + intros (k & b & Hk & <- & Hs).
      pose proof (refs_booked st C k b s Hk Hs). congruence.
Qed.

Lemma no_double_booking_witness :
  reachable demo_store ∧
  (∀ k1 k2 e s,
     references demo_store k1 e s → references demo_store k2 e s → k1 = k2) ∧
  (∀ s e v, seats demo_store !! (s, e) = Some v →
            (v = true ↔ ∃ k, references demo_store k e s)).
Proof.
  assert (H : reachable demo_store) by apply reachable_run.
  split; [exact H|]. exact (no_double_booking demo_store H).
Defined.

(** C2.  Quota: in every state reached by a sequence of requests, every live
    booking has one or two populated slots, and for every user and event the
    populated slots of the user's live bookings for the event sum to at
    most 2. *)
Theorem quota_invariant st :
  reachable st →
  (∀ k b, bookings st !! k = Some b → slots_held b = 1 ∨ slots_held b = 2) ∧
  (∀ e u, held st e u ≤ 2).
Proof.
  intros C%reachable_consistent. split.
  - intros k b Hk.
    destruct (slots_packed st C k b Hk) as (s1 & H1 & [H2|(s2 & H2 & _)]);
      unfold slots_held, seat_refs; rewrite H1, H2; cbn; lia.
  - apply (within_quota st C).
Qed.

Lemma quota_invariant_witness :
  reachable demo_store ∧
  (∀ k b, bookings demo_store !! k = Some b →
          slots_held b = 1 ∨ slots_held b = 2) ∧
  (∀ e u, held demo_store e u ≤ 2).
Proof.
  assert (H : reachable demo_store) by apply reachable_run.
  split; [exact H|]. exact (quota_invariant demo_store H).
Defined.

Example demo_alice_holds_two : held demo_store 7%N "alice" = 2.
Proof. vm_compute. reflexivity. Qed.

(** What a successful booking request went through. *)
Lemma post_tickets_book_inr new_id booking st resp st' :
  post_tickets_book new_id booking st = (inr resp, st') →
  ∃ e, let u := req_user_id booking in
       let sel := select_available_seats st e (tickets booking) in
       req_event_id booking = Some e ∧
       is_Some (events st !! e) ∧
       0 < tickets booking ≤ 2 ∧
       count_tickets (select_user_bookings st e u) + tickets booking ≤ 2 ∧
       Z.of_nat (length sel) = tickets booking ∧
       bookings st !! new_id = None ∧
       st' = booked new_id e u sel st ∧
       resp = {| bresp_booking_id := new_id; bresp_event_id := e;
                 bresp_user_id := u; bresp_tickets := tickets booking |}.
Proof.
  rewrite post_tickets_book_eq.
  destruct (TicketBooking_valid booking) eqn:Hvalid; [|done].
  destruct (req_event_id booking) as [e|]; [|done].
  destruct (events st !! e) as [ev|] eqn:Hev; [|done]. cbn zeta.
  case_decide as Hq; [done|]. case_decide as Hlen; [done|].
  destruct (bookings st !! new_id) eqn:Hnew; [done|].
  intros [= <- <-]. exists e. cbn zeta.
  assert (0 < tickets booking ≤ 2) as Hn
    by (unfold TicketBooking_valid in Hvalid; lia).
  split_and!; eauto; try lia.
  by apply select_available_seats_length.
Qed.

(** A request that meets every condition is served. *)
Lemma post_tickets_book_ok new_id booking st e :
  req_event_id booking = Some e →
  is_Some (events st !! e) →
  0 < tickets booking ≤ 2 →
  count_tickets (select_user_bookings st e (req_user_id booking))
    + tickets booking ≤ 2 →
  tickets booking ≤ Z.of_nat (length (unbooked_seats st e)) →
  bookings st !! new_id = None →
  post_tickets_book new_id booking st =
  (inr {| bresp_booking_id := new_id; bresp_event_id := e;
          bresp_user_id := req_user_id booking;
          bresp_tickets := tickets booking |},
   booked new_id e (req_user_id booking)
     (select_available_seats st e (tickets booking)) st).
Proof.
  intros He [ev Hev] Hn Hq Hfree Hnew. rewrite post_tickets_book_eq.
  unfold TicketBooking_valid.
  replace (0 <? tickets booking) with true by lia.
  replace (tickets booking <=? 2) with true by lia. cbn [andb].
  rewrite He, Hev. cbn zeta.
  rewrite decide_False by lia. rewrite decide_False.
  - by rewrite Hnew.
  - rewrite length_select_available_seats. lia.
Qed.

(** C3.  Lowest-seat selection: a successful booking request for [count]
    seats creates a booking whose populated slots hold exactly [count] seats,
    the lowest-numbered unbooked seats of the event in ascending order; each
    of them is marked booked and no other seat row changes. *)
Theorem lowest_seat_selection new_id booking st resp st' :
  post_tickets_book new_id booking st = (inr resp, st') →
  ∃ e b,
    req_event_id booking = Some e ∧
    bookings st !! new_id = None ∧
    bookings st' !! new_id = Some b ∧
    event_id b = e ∧ user_id b = req_user_id booking ∧
    Z.of_nat (length (seat_refs b)) = tickets booking ∧
    lowest_unbooked st e (seat_refs b) ∧
    (∀ s, s ∈ seat_refs b → seats st' !! (s, e) = Some true) ∧
    (∀ s e', ¬ (e' = e ∧ s ∈ seat_refs b) →
             seats st' !! (s, e') = seats st !! (s, e')).
Proof.
  intros (e & He & Hev & Hn & Hq & Hlen & Hnew & -> & _)%post_tickets_book_inr.
  set (sel := select_available_seats st e (tickets booking)) in *.
  exists e, (booking_of e (req_user_id booking) sel).
  assert (Hrefs : seat_refs (booking_of e (req_user_id booking) sel) = sel).
  { apply seat_refs_booking_of. lia. }
  rewrite Hrefs. unfold booked. cbn [bookings seats].
  split_and!; try done.
  - by rewrite lookup_insert_eq.
  - split_and!.
    + apply select_available_seats_ascending.
    + intros s. apply elem_of_select_available_seats.
    + intros s s'. apply select_available_seats_lowest.
  - intros s Hs. rewrite lookup_mark_seats. by rewrite decide_True.
  - intros s e' Hne. rewrite lookup_mark_seats. by rewrite decide_False.
Qed.

Lemma lowest_seat_selection_witness :
  let st' := (post_tickets_book 3%N bob1 demo_store).2 in
  let resp := {| bresp_booking_id := 3%N; bresp_event_id := 7%N;
                 bresp_user_id := "bob"; bresp_tickets := 1 |} in
  post_tickets_book 3%N bob1 demo_store = (inr resp, st') ∧
  ∃ e b,
    req_event_id bob1 = Some e ∧
    bookings demo_store !! 3%N = None ∧
    bookings st' !! 3%N = Some b ∧
    event_id b = e ∧ user_id b = req_user_id bob1 ∧
    Z.of_nat (length (seat_refs b)) = tickets bob1 ∧
    lowest_unbooked demo_store e (seat_refs b) ∧
    (∀ s, s ∈ seat_refs b → seats st' !! (s, e) = Some true) ∧
    (∀ s e', ¬ (e' = e ∧ s ∈ seat_refs b) →
             seats st' !! (s, e') = seats demo_store !! (s, e')).
Proof.
  intros st' resp.
  assert (H : post_tickets_book 3%N bob1 demo_store = (inr resp, st'))
    by (vm_compute; reflexivity).
  split; [exact H|].
  exact (lowest_seat_selection 3%N bob1 demo_store resp st' H).
Defined.

Example demo_bob_gets_seat_4 :
  bookings (post_tickets_book 3%N bob1 demo_store).2 !! 3%N =
  Some {| event_id := 7%N; seat_id1 := Some 4; seat_id2 := None;
          user_id := "bob" |}.
Proof. vm_compute. reflexivity. Qed.

(** C10.  Slot layout: the booking created by a successful request is
    left-packed.  For one seat, [seat_id1] holds it and [seat_id2] is null;
    for two seats both slots are populated and [seat_id1 < seat_id2]. *)
Theorem booking_slots_left_packed new_id booking st resp st' :
  post_tickets_book new_id booking st = (inr resp, st') →
  ∃ b, bookings st' !! new_id = Some b ∧
       ((tickets booking = 1 ∧
         ∃ s1, seat_id1 b = Some s1 ∧ seat_id2 b = None) ∨
        (tickets booking = 2 ∧
         ∃ s1 s2, seat_id1 b = Some s1 ∧ seat_id2 b = Some s2 ∧ s1 < s2)).
Proof.
  intros (e & He & Hev & Hn & Hq & Hlen & Hnew & -> & _)%post_tickets_book_inr.
  pose proof (select_available_seats_ascending st e (tickets booking)) as Hasc.
  set (sel := select_available_seats st e (tickets booking)) in *.
  exists (booking_of e (req_user_id booking) sel).
  unfold booked. cbn [bookings]. rewrite lookup_insert_eq. split; [done|].
  destruct sel as [|s1 [|s2 [|s3 rest]]]; cbn in Hlen; cbn; try lia.
  - left. split; [lia|]. by exists s1.
  - right. split; [lia|]. exists s1, s2. split_and!; try done.
    apply StronglySorted_inv in Hasc as [_ Hall].
    by apply Forall_cons in Hall as [? _].
Qed.

Lemma booking_slots_left_packed_witness :
  let st' := (post_tickets_book 1%N alice2 demo_event).2 in
  let resp := {| bresp_booking_id := 1%N; bresp_event_id := 7%N;
                 bresp_user_id := "alice"; bresp_tickets := 2 |} in
  post_tickets_book 1%N alice2 demo_event = (inr resp, st') ∧
  ∃ b, bookings st' !! 1%N = Some b ∧
       ((tickets alice2 = 1 ∧
         ∃ s1, seat_id1 b = Some s1 ∧ seat_id2 b = None) ∨
        (tickets alice2 = 2 ∧
         ∃ s1 s2, seat_id1 b = Some s1 ∧ seat_id2 b = Some s2 ∧ s1 < s2)).
Proof.
  intros st' resp.
  assert (H : post_tickets_book 1%N alice2 demo_event = (inr resp, st'))
    by (vm_compute; reflexivity).
  split; [exact H|].
  exact (booking_slots_left_packed 1%N alice2 demo_event resp st' H).
Defined.

(** C6.  Rollback: a booking request that fails, whatever the failure,
    leaves the durable store as it was; no seat row changed and no booking
    row was created. *)
Theorem book_failure_rolls_back new_id booking st x st' :
  post_tickets_book new_id booking st = (inl x, st') → st' = st.
Proof.
  rewrite post_tickets_book_eq.
  destruct (TicketBooking_valid booking); [|by intros [= _ <-]].
  destruct (req_event_id booking) as [e|]; [|by intros [= _ <-]].
  destruct (events st !! e); [|by intros [= _ <-]]. cbn zeta.
  case_decide; [by intros [= _ <-]|]. case_decide; [by intros [= _ <-]|].
  destruct (bookings st !! new_id); [by intros [= _ <-]|done].
Qed.

Lemma book_failure_rolls_back_witness :
  let r := post_tickets_book 3%N alice1 demo_store in
  r = (inl (HTTPException 400 (CannotBookMore "alice" 7%N 2 1)), r.2) ∧
  r.2 = demo_store.
Proof.
  intros r.
  assert (H : r = (inl (HTTPException 400 (CannotBookMore "alice" 7%N 2 1)),
                   r.2)) by (vm_compute; reflexivity).
  split; [exact H|].
  exact (book_failure_rolls_back 3%N alice1 demo_store _ r.2 H).
Defined.

(** The primary key of the new booking is taken: the seats were marked in
    the session, and closing it without a commit drops the marks. *)
Example book_taken_id_rolls_back :
  post_tickets_book 1%N bob1 demo_store = (inl IntegrityError, demo_store).
Proof. vm_compute. reflexivity. Qed.

Lemma unbooked_count_length st e :
  unbooked_count st e = Z.of_nat (length (unbooked_seats st e)).
Proof.
  unfold unbooked_count, unbooked_seats. rewrite merge_sort_Permutation.
  f_equal. induction (map_to_list (seats st)) as [|[[s e'] v] l IH]; [done|].
  rewrite filter_cons. cbn [omap list_omap]. unfold unbooked_of at 1. cbn.
  destruct (decide (e' = e)) as [->|Hne].
  - destruct v.
    + rewrite decide_False by (by intros [_ ?]). apply IH.
    + rewrite decide_True by done. cbn. by rewrite IH.
  - rewrite decide_False by (by intros [? _]). apply IH.
Qed.

(** C4.  QuotaExceeded: for an existing event and a count of 1 or 2, the
    request fails with QuotaExceeded exactly when the populated slots of the
    user's live bookings for the event plus the count exceed 2, and the
    failure carries that held count and the requested count.  Seat numbers
    start at one in the store, as in every reachable state. *)
Theorem quota_exceeded_iff new_id booking st e :
  one_based st →
  req_event_id booking = Some e →
  is_Some (events st !! e) →
  0 < tickets booking ≤ 2 →
  let outcome := (post_tickets_book new_id booking st).1 in
  let h := held st e (req_user_id booking) in
  ((∃ x h' r', outcome = inl x ∧ QuotaExceeded h' r' x)
   ↔ h + tickets booking > 2) ∧
  (h + tickets booking > 2 →
   outcome = inl (HTTPException 400
                    (CannotBookMore (req_user_id booking) e h
                       (tickets booking)))).
Proof.
  intros Hone He [ev Hev] Hn outcome h. subst outcome h.
  rewrite post_tickets_book_eq. unfold TicketBooking_valid.
  replace (0 <? tickets booking) with true by lia.
  replace (tickets booking <=? 2) with true by lia. cbn [andb].
  rewrite He, Hev. cbn zeta.
  rewrite (count_tickets_held st e _ Hone).
  case_decide as Hq.
  - split; [|done]. split; [done|]. intros _.
    eexists _, _, _. split; [done|]. by eexists _, _.
  - split; [|done]. split; [|done].
    intros (x & h' & r' & Hx & (u' & e' & ->)).
    case_decide; [done|]. by destruct (bookings st !! new_id).
Qed.

Lemma quota_exceeded_iff_witness :
  one_based demo_store ∧
  ((∃ x h' r', (post_tickets_book 3%N alice1 demo_store).1 = inl x
               ∧ QuotaExceeded h' r' x)
   ↔ held demo_store 7%N "alice" + 1 > 2) ∧
  (held demo_store 7%N "alice" + 1 > 2 →
   (post_tickets_book 3%N alice1 demo_store).1 =
   inl (HTTPException 400
          (CannotBookMore "alice" 7%N (held demo_store 7%N "alice") 1))).
Proof.
  assert (H : one_based demo_store)
    by apply reachable_one_based, reachable_run.
  split; [exact H|].
  refine (quota_exceeded_iff 3%N alice1 demo_store 7%N H eq_refl _ _).
  - vm_compute. eauto.
  - cbn. lia.
Defined.

(** The scenario of the specification: held 2, requested 1. *)
Example demo_quota_exceeded :
  (post_tickets_book 3%N alice1 demo_store).1 =
  inl (HTTPException 400 (CannotBookMore "alice" 7%N 2 1)).
Proof. vm_compute. reflexivity. Qed.

(** C5.  InsufficientCapacity: for an existing event, a user within quota and
    a count of 1 or 2, when fewer than [count] seat rows of the event are
    unbooked the request fails with InsufficientCapacity and the store is
    left as it was. *)
Theorem insufficient_capacity new_id booking st e :
  one_based st →
  req_event_id booking = Some e →
  is_Some (events st !! e) →
  0 < tickets booking ≤ 2 →
  held st e (req_user_id booking) + tickets booking ≤ 2 →
  unbooked_count st e < tickets booking →
  ∃ x, post_tickets_book new_id booking st = (inl x, st) ∧
       InsufficientCapacity x.
Proof.
  intros Hone He [ev Hev] Hn Hq Hfree.
  rewrite post_tickets_book_eq. unfold TicketBooking_valid.
  replace (0 <? tickets booking) with true by lia.
  replace (tickets booking <=? 2) with true by lia. cbn [andb].
  rewrite He, Hev. cbn zeta.
  rewrite (count_tickets_held st e _ Hone).
  rewrite decide_False by lia. rewrite decide_True.
  - eexists. split; [done|]. by eexists _, _.
  - rewrite length_select_available_seats.
    rewrite unbooked_count_length in Hfree. lia.
Qed.

Lemma insufficient_capacity_witness :
  one_based sold_out ∧ unbooked_count sold_out 7%N < 1 ∧
  ∃ x, post_tickets_book 99%N carol1 sold_out = (inl x, sold_out) ∧
       InsufficientCapacity x.
Proof.
  assert (H : one_based sold_out)
    by apply reachable_one_based, reachable_run.
  assert (Hfree : unbooked_count sold_out 7%N < 1)
    by (vm_compute; reflexivity).
  split; [exact H|]. split; [exact Hfree|].
  refine (insufficient_capacity 99%N carol1 sold_out 7%N H eq_refl _ _ _ Hfree).
  - vm_compute. eauto.
  - cbn. lia.
  - vm_compute. discriminate.
Defined.

Example demo_sold_out :
  post_tickets_book 99%N carol1 sold_out =
  (inl (HTTPException 400 (NotEnoughTickets 0 1)), sold_out).
Proof. vm_compute. reflexivity. Qed.

(** C7.  Cancellation releases exactly its own seats: cancelling a live
    booking [b] succeeds; every seat row that a populated slot of [b] names
    is unbooked afterwards, the row of [b] is deleted, and every other
    booking row, every seat row not named by [b] and every event row is as
    before.  Seat numbers start at one in the store, as in every reachable
    state. *)
Theorem cancel_releases_own_seats cancel st b :
  one_based st →
  bookings st !! booking_id cancel = Some b →
  ∃ st',
    post_tickets_cancel cancel st =
      (inr {| cresp_booking_id := booking_id cancel |}, st') ∧
    (∀ s, s ∈ seat_refs b → is_Some (seats st !! (s, event_id b)) →
          seats st' !! (s, event_id b) = Some false) ∧
    bookings st' !! booking_id cancel = None ∧
    (∀ k, k ≠ booking_id cancel → bookings st' !! k = bookings st !! k) ∧
    (∀ s e, ¬ (e = event_id b ∧ s ∈ seat_refs b) →
            seats st' !! (s, e) = seats st !! (s, e)) ∧
    events st' = events st.
Proof.
  intros [Hone _] Hb. exists (cancelled (booking_id cancel) b st).
  rewrite post_tickets_cancel_eq, Hb. split_and!; try done.
  - intros s Hs [v Hv]. rewrite lookup_cancelled_seats, decide_True; [done|].
    specialize (Hone _ _ _ Hv). split_and!; eauto. lia.
  - apply lookup_delete_eq.
  - intros k Hk. by apply lookup_delete_ne.
  - intros s e Hne. rewrite lookup_cancelled_seats, decide_False; [done|].
    intros (? & ? & _). by apply Hne.
Qed.

Lemma cancel_releases_own_seats_witness :
  let b := {| event_id := 7%N; seat_id1 := Some 1; seat_id2 := Some 2;
              user_id := "alice" |} in
  let cancel := {| booking_id := 1%N |} in
  one_based demo_store ∧ bookings demo_store !! 1%N = Some b ∧
  ∃ st',
    post_tickets_cancel cancel demo_store =
      (inr {| cresp_booking_id := 1%N |}, st') ∧
    (∀ s, s ∈ seat_refs b → is_Some (seats demo_store !! (s, 7%N)) →
          seats st' !! (s, 7%N) = Some false) ∧
    bookings st' !! 1%N = None ∧
    (∀ k, k ≠ 1%N → bookings st' !! k = bookings demo_store !! k) ∧
    (∀ s e, ¬ (e = 7%N ∧ s ∈ seat_refs b) →
            seats st' !! (s, e) = seats demo_store !! (s, e)) ∧
    events st' = events demo_store.
Proof.
  intros b cancel.
  assert (H : one_based demo_store)
    by apply reachable_one_based, reachable_run.
  assert (Hb : bookings demo_store !! booking_id cancel = Some b)
    by (vm_compute; reflexivity).
  split; [exact H|]. split; [exact Hb|].
  exact (cancel_releases_own_seats cancel demo_store b H Hb).
Defined.

(** Why seat numbers have to start at one: a slot that holds 0 is false in
    the handler's conditions, so it is neither counted nor released. *)
Example slot_zero_not_counted :
  count_tickets (select_user_bookings zero_store 7%N "alice") = 0 ∧
  held zero_store 7%N "alice" = 1.
Proof. vm_compute. done. Qed.

Example slot_zero_not_released :
  seats (post_tickets_cancel {| booking_id := 1%N |} zero_store).2
    !! (0, 7%N) = Some true.
Proof. vm_compute. reflexivity. Qed.

(** After alice cancels, seats 1 and 2 are the lowest unbooked ones again. *)
Example demo_cancel_frees_seats :
  take 3 (unbooked_seats
            (post_tickets_cancel {| booking_id := 1%N |} demo_store).2 7%N)
  = [1; 2; 4].
Proof. vm_compute. reflexivity. Qed.

(** The end of the scenario of the specification, on the sold-out event:
    the first buyer cancels and carol gets a seat out of 1 and 2. *)
Example demo_carol_after_cancel :
  bookings
    (post_tickets_book 99%N carol1
       (post_tickets_cancel {| booking_id := 1%N |} sold_out).2).2 !! 99%N =
  Some {| event_id := 7%N; seat_id1 := Some 1; seat_id2 := None;
          user_id := "carol" |}.
Proof. vm_compute. reflexivity. Qed.

(** C8.  Cancellation fails with NotFound exactly when no booking has the
    given id.  When the booking exists the request succeeds and the booking
    row is deleted, also when a populated slot names no seat row. *)
Theorem cancel_not_found_iff cancel st :
  (bookings st !! booking_id cancel = None ↔
   ∃ x, (post_tickets_cancel cancel st).1 = inl x ∧ NotFound x) ∧
  (∀ b, bookings st !! booking_id cancel = Some b →
        ∃ st', post_tickets_cancel cancel st =
                 (inr {| cresp_booking_id := booking_id cancel |}, st') ∧
               bookings st' !! booking_id cancel = None).
Proof.
  rewrite post_tickets_cancel_eq.
  destruct (bookings st !! booking_id cancel) as [b|] eqn:Hb.
  - split.
    + split; [done|]. by intros (x & [=] & _).
    + intros b' [= <-]. eexists. split; [done|]. apply lookup_delete_eq.
  - split; [|done]. split; [|done]. intros _.
    eexists. split; [done|]. by eexists.
Qed.

Lemma cancel_not_found_iff_witness :
  let cancel := {| booking_id := 1%N |} in
  (∀ s, s ∈ [5] → seats dangling_store !! (s, 7%N) = None) ∧
  ∃ st', post_tickets_cancel cancel dangling_store =
           (inr {| cresp_booking_id := 1%N |}, st') ∧
         bookings st' !! 1%N = None.
Proof.
  intros cancel. split; [intros s _; apply lookup_empty|].
  refine (proj2 (cancel_not_found_iff cancel dangling_store) _ _).
  vm_compute. reflexivity.
Defined.

Example demo_cancel_unknown :
  (post_tickets_cancel {| booking_id := 9%N |} demo_store) =
  (inl (HTTPException 404 (BookingNotFound 9%N)), demo_store).
Proof. vm_compute. reflexivity. Qed.

(** C9, as stated, fails: the endpoint has no capacity input.  Asked for an
    event of capacity 3, it creates one of capacity 100, with a seat 4. *)
Lemma initialize_event_ignores_capacity :
  let capacity := Some 3 in
  ∃ resp st',
    post_events_initialize 1%N empty_db = (inr resp, st') ∧
    resp_total_tickets resp ≠ default 100 capacity ∧
    seats st' !! (4, 1%N) = Some false ∧
    post_events_initialize 1%N empty_db ≠
      initializeEvent_spec capacity 1%N empty_db.
Proof.
  intros capacity.
  exists {| resp_event_id := 1%N; resp_total_tickets := 100 |},
         (post_events_initialize 1%N empty_db).2.
  split_and!.
  - vm_compute. reflexivity.
  - cbn. lia.
  - vm_compute. reflexivity.
  - intros H. apply (f_equal fst) in H. vm_compute in H. discriminate.
Qed.

(** C9, amended.  The endpoint takes no capacity.  With an id new to the
    store it creates one event with [total_tickets = 100], the column
    default, and in the same transaction one unbooked seat row for each seat
    number from 1 to 100 and no other row; this is the operation of the
    specification at its default capacity.  Its only failure is the store
    refusing the id, never a domain error, and it leaves the store as it
    was. *)
Theorem initialize_event_default new_id st :
  (∀ x st', post_events_initialize new_id st = (inl x, st') →
            x = IntegrityError ∧ ¬ domain_error x ∧ st' = st) ∧
  (events st !! new_id = None →
   (∀ s, seats st !! (s, new_id) = None) →
   ∃ st',
     post_events_initialize new_id st =
       (inr {| resp_event_id := new_id; resp_total_tickets := 100 |}, st') ∧
     post_events_initialize new_id st = initializeEvent_spec None new_id st ∧
     events st' = <[new_id := {| total_tickets := 100 |}]> (events st) ∧
     (∀ s, seats st' !! (s, new_id) =
           if decide (1 ≤ s ≤ 100) then Some false else None) ∧
     (∀ s e, e ≠ new_id → seats st' !! (s, e) = seats st !! (s, e)) ∧
     bookings st' = bookings st).
Proof.
  split.
  - intros x st' H.
    destruct (post_events_initialize_cases new_id st) as [H'|H'];
      rewrite H' in H; [|done]. injection H as <- <-.
    split_and!; try done. by intros (c & d & ?).
  - intros Hev Hse. exists (initialized new_id st).
    rewrite (post_events_initialize_fresh new_id st Hev Hse).
    split_and!; try done.
    + intros s. unfold initialized. cbn [seats]. rewrite lookup_new_seats.
      unfold range1. destruct (decide (1 ≤ s ≤ 100)) as [Hs|Hs].
      * rewrite decide_True; [done|]. split; [done|].
        apply elem_of_seqZ. lia.
      * rewrite decide_False; [apply Hse|].
        intros [_ H%elem_of_seqZ]. lia.
    + intros s e Hne. unfold initialized. cbn [seats].
      rewrite lookup_new_seats, decide_False; [done|]. by intros [? _].
Qed.

Lemma initialize_event_default_witness :
  events empty_db !! 7%N = None ∧
  (∀ s, seats empty_db !! (s, 7%N) = None) ∧
  ∃ st',
    post_events_initialize 7%N empty_db =
      (inr {| resp_event_id := 7%N; resp_total_tickets := 100 |}, st') ∧
    post_events_initialize 7%N empty_db =
      initializeEvent_spec None 7%N empty_db ∧
    events st' = <[7%N := {| total_tickets := 100 |}]> (events empty_db) ∧
    (∀ s, seats st' !! (s, 7%N) =
          if decide (1 ≤ s ≤ 100) then Some false else None) ∧
    (∀ s e, e ≠ 7%N → seats st' !! (s, e) = seats empty_db !! (s, e)) ∧
    bookings st' = bookings empty_db.
Proof.
  assert (H1 : events empty_db !! 7%N = None) by reflexivity.
  assert (H2 : ∀ s, seats empty_db !! (s, 7%N) = None)
    by (intros s; apply lookup_empty).
  split; [exact H1|]. split; [exact H2|].
  exact (proj2 (initialize_event_default 7%N empty_db) H1 H2).
Defined.

(** A second draw of the same id is refused and changes nothing. *)
Example demo_initialize_taken :
  post_events_initialize 7%N demo_store = (inl IntegrityError, demo_store).
Proof. vm_compute. reflexivity. Qed.


(** * Further properties of the endpoints *)

Lemma get_events_eq event_id st :
  get_events event_id st =
  match events st !! event_id with
  | None => (inl (HTTPException 404 (EventNotFound event_id)), st)
  | Some ev =>
    (inr {| resp_event_id := event_id;
            resp_total_tickets := total_tickets ev |}, st)
  end.
Proof.
  unfold get_events, with_db, get_event, bind, query. session_norm.
  destruct (events st !! event_id); reflexivity.
Qed.

Lemma post_events_initialize_inr new_id st resp st' :
  post_events_initialize new_id st = (inr resp, st') →
  events st !! new_id = None ∧
  resp = {| resp_event_id := new_id; resp_total_tickets := 100 |} ∧
  st' = initialized new_id st.
Proof.
  intros H. destruct (events st !! new_id) as [ev|] eqn:Hev.
  - rewrite post_events_initialize_taken in H by eauto. done.
  - destruct (post_events_initialize_cases new_id st) as [H'|H'];
      rewrite H' in H; [done|]. by injection H as <- <-.
Qed.

Lemma post_tickets_book_inl new_id booking st x st' :
  post_tickets_book new_id booking st = (inl x, st') → st' = st.
Proof.
  rewrite post_tickets_book_eq.
  destruct (TicketBooking_valid booking); [|by intros [= _ <-]].
  destruct (req_event_id booking) as [e|]; [|by intros [= _ <-]].
  destruct (events st !! e); [|by intros [= _ <-]]. cbn zeta.
  case_decide; [by intros [= _ <-]|]. case_decide; [by intros [= _ <-]|].
  destruct (bookings st !! new_id); [by intros [= _ <-]|done].
Qed.

Lemma step_cases st r :
  step st r = st ∨
  (∃ new_id, r = InitializeEvent new_id ∧ events st !! new_id = None ∧
             step st r = initialized new_id st) ∨
  (∃ new_id booking e,
     r = BookTickets new_id booking ∧ req_event_id booking = Some e ∧
     is_Some (events st !! e) ∧ 0 < tickets booking ≤ 2 ∧
     Z.of_nat (length (select_available_seats st e (tickets booking)))
       = tickets booking ∧
     bookings st !! new_id = None ∧
     step st r = booked new_id e (req_user_id booking)
                   (select_available_seats st e (tickets booking)) st) ∨
  (∃ cancel b, r = CancelBooking cancel ∧
               bookings st !! booking_id cancel = Some b ∧
               step st r = cancelled (booking_id cancel) b st).
Proof.
  destruct r as [new_id|new_id booking|cancel]; cbn [step].
  - destruct (post_events_initialize new_id st) as [[x|resp] st'] eqn:H.
    + left. destruct (post_events_initialize_cases new_id st) as [H'|H'];
        rewrite H' in H; [|done]. by injection H as _ <-.
    + right. left. apply post_events_initialize_inr in H as (? & _ & ->).
      by exists new_id.
  - destruct (post_tickets_book new_id booking st) as [[x|resp] st'] eqn:H.
    + left. by apply post_tickets_book_inl in H.
    + right. right. left.
      apply post_tickets_book_inr in H
        as (e & ? & ? & ? & ? & ? & ? & -> & _).
      by exists new_id, booking, e.
  - rewrite post_tickets_cancel_eq.
    destruct (bookings st !! booking_id cancel) as [b|] eqn:Hb; [|by left].
    right. right. right. by exists cancel, b.
Qed.

(** ** Events and seat rows over a history *)

Lemma step_events st r e ev :
  events st !! e = Some ev → events (step st r) !! e = Some ev.
Proof.
  intros He.
  destruct (step_cases st r)
    as [->|[(k & _ & Hk & ->)|[(k & bk & e' & _ & _ & _ & _ & _ & _ & ->)
       |(c & b & _ & _ & ->)]]]; try done.
  cbn. rewrite lookup_insert_ne; [done|]. congruence.
Qed.

Lemma is_Some_mark_seats e l m k :
  (∀ s, s ∈ l → is_Some (m !! (s, e))) →
  is_Some (mark_seats e l m !! k) ↔ is_Some (m !! k).
Proof.
  intros Hl. destruct k as [s e']. rewrite lookup_mark_seats.
  case_decide as H; [|done]. destruct H as [-> H]. split; [|done].
  intros _. by apply Hl.
Qed.

Lemma is_Some_cancelled_seats k b st key :
  is_Some (seats (cancelled k b st) !! key) ↔ is_Some (seats st !! key).
Proof.
  destruct key as [s e]. rewrite lookup_cancelled_seats.
  case_decide as H; [|done]. destruct H as (_ & _ & _ & H). done.
Qed.

Lemma dense_empty : dense empty_db.
Proof.
  split; cbn.
  - intros e ev. by rewrite lookup_empty.
  - intros s e. rewrite !lookup_empty. split; [by intros [? ?]|].
    by intros (ev & ? & _).
Qed.

Lemma step_dense st r : dense st → dense (step st r).
Proof.
  intros [Hcap Hrows].
  destruct (step_cases st r)
    as [->|[(k & _ & Hk & ->)|[(k & bk & e' & _ & _ & _ & _ & _ & _ & ->)
       |(c & b & _ & _ & ->)]]]; [done| | |].
  - split; cbn [initialized events seats].
    + intros e ev. destruct (decide (k = e)) as [->|Hne].
      * rewrite lookup_insert_eq. by intros [= <-].
      * rewrite lookup_insert_ne by done. apply Hcap.
    + intros s e. rewrite lookup_new_seats. unfold range1.
      destruct (decide (k = e)) as [<-|Hne].
      * rewrite lookup_insert_eq. case_decide as H.
        -- destruct H as [_ H%elem_of_seqZ]. split; [|done]. intros _.
           exists Event_default. split; [done|]. cbn. lia.
        -- rewrite Hrows, Hk. split; [by intros (? & ? & _)|].
           intros (ev & [= <-] & Hs). destruct H. split; [done|].
           apply elem_of_seqZ. cbn in Hs. lia.
      * rewrite lookup_insert_ne by done. rewrite decide_False; [apply Hrows|].
        intros [? _]. congruence.
  - split; cbn [booked events seats]; [done|]. intros s e.
    rewrite is_Some_mark_seats; [apply Hrows|]. intros s' Hs'.
    apply elem_of_select_available_seats in Hs'. rewrite Hs'. eauto.
  - split; [done|]. intros s e. rewrite is_Some_cancelled_seats. apply Hrows.
Qed.

Lemma reachable_dense st : reachable st → dense st.
Proof. induction 1; [apply dense_empty|by apply step_dense]. Qed.

(** X1.  The seat rows of an event: in every reachable store an event has
    [total_tickets = 100], its seat rows are exactly those numbered 1 to 100,
    and an identifier without an event has no seat rows. *)
Theorem seat_rows_dense st e :
  reachable st →
  match events st !! e with
  | Some ev =>
    total_tickets ev = 100 ∧
    ∀ s, is_Some (seats st !! (s, e)) ↔ 1 ≤ s ≤ total_tickets ev
  | None => ∀ s, seats st !! (s, e) = None
  end.
Proof.
  intros [Hcap Hrows]%reachable_dense.
  destruct (events st !! e) as [ev|] eqn:He.
  - split; [by apply (Hcap e)|]. intros s. rewrite Hrows, He. split.
    + by intros (? & [= <-] & ?).
    + intros ?. by exists ev.
  - intros s. apply eq_None_not_Some. rewrite Hrows, He.
    by intros (? & ? & _).
Qed.

Lemma seat_rows_dense_witness :
  reachable demo_store ∧
  match events demo_store !! 7%N with
  | Some ev =>
    total_tickets ev = 100 ∧
    ∀ s, is_Some (seats demo_store !! (s, 7%N)) ↔ 1 ≤ s ≤ total_tickets ev
  | None => ∀ s, seats demo_store !! (s, 7%N) = None
  end.
Proof.
  assert (H : reachable demo_store) by apply reachable_run.
  split; [exact H|]. exact (seat_rows_dense demo_store 7%N H).
Defined.

(** X2.  Events are never changed or removed: what [get_event] answers for
    an event it finds, it answers after any further request, and it leaves
    the store as it is. *)
Theorem get_event_stable st r e resp st' :
  get_events e st = (inr resp, st') →
  st' = st ∧ get_events e (step st r) = (inr resp, step st r).
Proof.
  rewrite !get_events_eq.
  destruct (events st !! e) as [ev|] eqn:He; [|done].
  intros [= <- <-]. split; [done|].
  by rewrite (step_events st r e ev He).
Qed.

Lemma get_event_stable_witness :
  let resp := {| resp_event_id := 7%N; resp_total_tickets := 100 |} in
  let r := BookTickets 3%N bob1 in
  get_events 7%N demo_store = (inr resp, demo_store) ∧
  demo_store = demo_store ∧
  get_events 7%N (step demo_store r) = (inr resp, step demo_store r).
Proof.
  intros resp r.
  assert (H : get_events 7%N demo_store = (inr resp, demo_store))
    by (vm_compute; reflexivity).
  split; [exact H|].
  exact (get_event_stable demo_store r 7%N resp demo_store H).
Defined.

(** X3.  Round trip: after a successful [initialize_event], [get_event] on
    the returned id gives the response the initialisation gave. *)
Theorem get_event_after_initialize new_id st resp st' :
  post_events_initialize new_id st = (inr resp, st') →
  get_events (resp_event_id resp) st' = (inr resp, st').
Proof.
  intros (_ & -> & ->)%post_events_initialize_inr.
  rewrite get_events_eq. cbn. by rewrite lookup_insert_eq.
Qed.

Lemma get_event_after_initialize_witness :
  let resp := {| resp_event_id := 8%N; resp_total_tickets := 100 |} in
  let st' := (post_events_initialize 8%N demo_store).2 in
  post_events_initialize 8%N demo_store = (inr resp, st') ∧
  get_events 8%N st' = (inr resp, st').
Proof.
  intros resp st'.
  assert (H : post_events_initialize 8%N demo_store = (inr resp, st'))
    by (vm_compute; reflexivity).
  split; [exact H|].
  exact (get_event_after_initialize 8%N demo_store resp st' H).
Defined.

(** ** Ascending lists of seat numbers *)

Lemma StronglySorted_lt_NoDup (l : list Z) : StronglySorted Z.lt l → NoDup l.
Proof.
  induction 1 as [|x l Hs IH Hall]; constructor; [|done].
  intros Hx. rewrite Forall_forall in Hall. specialize (Hall x Hx). lia.
Qed.

Lemma StronglySorted_lt_ext (l1 l2 : list Z) :
  StronglySorted Z.lt l1 → StronglySorted Z.lt l2 →
  (∀ x, x ∈ l1 ↔ x ∈ l2) → l1 = l2.
Proof.
  intros H1 H2 Hext. apply (StronglySorted_unique_strong Z.lt); try done.
  - intros; lia.
  - apply NoDup_Permutation; auto using StronglySorted_lt_NoDup.
Qed.

Lemma StronglySorted_seqZ m n : StronglySorted Z.lt (seqZ m n).
Proof.
  destruct (decide (n ≤ 0)) as [Hn|Hn]; [rewrite seqZ_nil by done; constructor|].
  rewrite <- (Z2Nat.id n) by lia. generalize (Z.to_nat n). clear. intros k.
  revert m. induction k as [|k IH]; intros m; [constructor|].
  rewrite seqZ_cons by lia. replace (Z.pred (Z.of_nat (S k))) with (Z.of_nat k) by lia.
  constructor; [apply IH|]. apply Forall_forall. intros x Hx%elem_of_seqZ. lia.
Qed.

Lemma unbooked_seats_ext st e l :
  StronglySorted Z.lt l →
  (∀ s, seats st !! (s, e) = Some false ↔ s ∈ l) →
  unbooked_seats st e = l.
Proof.
  intros Hl Hext. apply StronglySorted_lt_ext; [apply unbooked_seats_ascending|done|].
  intros s. by rewrite elem_of_unbooked_seats.
Qed.

Lemma unbooked_seats_same st st' e :
  (∀ s, seats st' !! (s, e) = seats st !! (s, e)) →
  unbooked_seats st' e = unbooked_seats st e.
Proof.
  intros H. apply unbooked_seats_ext; [apply unbooked_seats_ascending|].
  intros s. by rewrite H, elem_of_unbooked_seats.
Qed.

(** ** What a booking does to the event *)

(** X4.  A successful booking takes the assigned seats off the front of the
    unbooked seats of its event: what is left are the former unbooked seats
    without their first [tickets], the count drops by [tickets], and the
    unbooked seats of every other event are as before. *)
Theorem book_takes_prefix new_id booking st resp st' :
  post_tickets_book new_id booking st = (inr resp, st') →
  let e := bresp_event_id resp in
  let n := tickets booking in
  unbooked_seats st' e = drop (Z.to_nat n) (unbooked_seats st e) ∧
  unbooked_count st' e = unbooked_count st e - n ∧
  ∀ e', e' ≠ e → unbooked_seats st' e' = unbooked_seats st e'.
Proof.
  intros (e & He & Hev & Hn & Hq & Hlen & Hnew & -> & ->)%post_tickets_book_inr.
  cbn [bresp_event_id]. cbn zeta.
  pose proof (unbooked_seats_ascending st e) as Hasc.
  pose proof (take_drop (Z.to_nat (tickets booking)) (unbooked_seats st e))
    as Htd.
  fold (select_available_seats st e (tickets booking)) in Htd.
  set (sel := select_available_seats st e (tickets booking)) in *.
  set (rest := drop (Z.to_nat (tickets booking)) (unbooked_seats st e)) in *.
  rewrite <- Htd in Hasc.
  assert (Hrest : unbooked_seats
                    (booked new_id e (req_user_id booking) sel st) e = rest).
  { apply unbooked_seats_ext; [by apply StronglySorted_app_1_r in Hasc|].
    intros s. cbn [booked seats]. rewrite lookup_mark_seats.
    pose proof (elem_of_unbooked_seats st e s) as Hs. rewrite <- Htd in Hs.
    rewrite elem_of_app in Hs. case_decide as Hd.
    - destruct Hd as [_ Hd]. split; [done|]. intros Hr.
      pose proof (StronglySorted_app_1_elem_of _ _ _ _ _ Hasc Hd Hr). lia.
    - rewrite <- Hs. split; [|by right]. intros [?|?]; [|done].
      by destruct Hd. }
  split_and!; [done| |].
  - rewrite !unbooked_count_length, Hrest, <- Htd, length_app. lia.
  - intros e' Hne. apply unbooked_seats_same. intros s. cbn [booked seats].
    rewrite lookup_mark_seats, decide_False; [done|]. by intros [? _].
Qed.

Lemma book_takes_prefix_witness :
  let resp := {| bresp_booking_id := 3%N; bresp_event_id := 7%N;
                 bresp_user_id := "bob"; bresp_tickets := 1 |} in
  let st' := (post_tickets_book 3%N bob1 demo_store).2 in
  post_tickets_book 3%N bob1 demo_store = (inr resp, st') ∧
  unbooked_seats st' 7%N = drop 1 (unbooked_seats demo_store 7%N) ∧
  unbooked_count st' 7%N = unbooked_count demo_store 7%N - 1 ∧
  ∀ e', e' ≠ 7%N → unbooked_seats st' e' = unbooked_seats demo_store e'.
Proof.
  intros resp st'.
  assert (H : post_tickets_book 3%N bob1 demo_store = (inr resp, st'))
    by (vm_compute; reflexivity).
  split; [exact H|].
  exact (book_takes_prefix 3%N bob1 demo_store resp st' H).
Defined.

(** X5.  A successful booking raises the seats held by its user for its
    event by [tickets], and the seats held by any other user or for any
    other event not at all. *)
Theorem book_raises_held new_id booking st resp st' :
  post_tickets_book new_id booking st = (inr resp, st') →
  ∀ e u,
    held st' e u =
    held st e u +
    (if decide (bresp_event_id resp = e ∧ bresp_user_id resp = u)
     then tickets booking else 0).
Proof.
  intros (e & He & Hev & Hn & Hq & Hlen & Hnew & -> & ->)%post_tickets_book_inr.
  intros e' u'. cbn [bresp_event_id bresp_user_id].
  erewrite (held_insert st _ new_id _ e' u' Hnew); [|reflexivity].
  cbn [booking_of event_id user_id].
  unfold slots_held. rewrite seat_refs_booking_of by lia.
  case_decide; lia.
Qed.

Lemma book_raises_held_witness :
  let resp := {| bresp_booking_id := 3%N; bresp_event_id := 7%N;
                 bresp_user_id := "bob"; bresp_tickets := 1 |} in
  let st' := (post_tickets_book 3%N bob1 demo_store).2 in
  post_tickets_book 3%N bob1 demo_store = (inr resp, st') ∧
  ∀ e u,
    held st' e u =
    held demo_store e u +
    (if decide (7%N = e ∧ "bob" = u) then 1 else 0).
Proof.
  intros resp st'.
  assert (H : post_tickets_book 3%N bob1 demo_store = (inr resp, st'))
    by (vm_compute; reflexivity).
  split; [exact H|].
  exact (book_raises_held 3%N bob1 demo_store resp st' H).
Defined.

(** X6.  When a booking request is served: in a store whose seat numbers
    start at one, the request succeeds exactly when its event id is well
    formed and names an event, the count is 1 or 2, the seats the user holds
    plus the count are at most 2, at least that many seats of the event are
    unbooked, and the drawn booking id is new. *)
Theorem book_succeeds_iff new_id booking st :
  one_based st →
  (∃ resp st', post_tickets_book new_id booking st = (inr resp, st')) ↔
  (∃ e, req_event_id booking = Some e ∧
        is_Some (events st !! e) ∧
        0 < tickets booking ≤ 2 ∧
        held st e (req_user_id booking) + tickets booking ≤ 2 ∧
        tickets booking ≤ unbooked_count st e ∧
        bookings st !! new_id = None).
Proof.
  intros Hone. split.
  - intros (resp & st' & H).
    apply post_tickets_book_inr
      in H as (e & He & Hev & Hn & Hq & Hlen & Hnew & _).
    exists e. rewrite (count_tickets_held st e _ Hone) in Hq.
    split_and!; try done; try lia.
    rewrite unbooked_count_length.
    rewrite length_select_available_seats in Hlen. lia.
  - intros (e & He & Hev & Hn & Hq & Hfree & Hnew).
    eexists _, _. apply (post_tickets_book_ok new_id booking st e); try done.
    + by rewrite (count_tickets_held st e _ Hone).
    + by rewrite <- unbooked_count_length.
Qed.

Lemma book_succeeds_iff_witness :
  one_based demo_store ∧
  ((∃ resp st', post_tickets_book 3%N bob1 demo_store = (inr resp, st')) ↔
   (∃ e, req_event_id bob1 = Some e ∧
         is_Some (events demo_store !! e) ∧
         0 < tickets bob1 ≤ 2 ∧
         held demo_store e (req_user_id bob1) + tickets bob1 ≤ 2 ∧
         tickets bob1 ≤ unbooked_count demo_store e ∧
         bookings demo_store !! 3%N = None)).
Proof.
  assert (H : one_based demo_store)
    by apply reachable_one_based, reachable_run.
  split; [exact H|]. exact (book_succeeds_iff 3%N bob1 demo_store H).
Defined.

(** ** Cancelling, and booking again *)

Lemma DB_eq (a b : DB) :
  events a = events b → seats a = seats b → bookings a = bookings b → a = b.
Proof. destruct a, b. cbn. by intros -> -> ->. Qed.

(** X7.  Cancelling undoes booking: in a store whose seat numbers start at
    one, a successful booking followed by the cancellation of the booking it
    created succeeds and gives back the store as it was before the
    booking. *)
Theorem book_then_cancel_restores new_id booking st resp st' :
  one_based st →
  post_tickets_book new_id booking st = (inr resp, st') →
  post_tickets_cancel {| booking_id := bresp_booking_id resp |} st' =
  (inr {| cresp_booking_id := new_id |}, st).
Proof.
  intros [Hone _].
  intros (e & He & Hev & Hn & Hq & Hlen & Hnew & -> & ->)%post_tickets_book_inr.
  set (sel := select_available_seats st e (tickets booking)) in *.
  set (b := booking_of e (req_user_id booking) sel).
  rewrite post_tickets_cancel_eq. cbn [booking_id bresp_booking_id].
  assert (Hb : bookings (booked new_id e (req_user_id booking) sel st)
               !! new_id = Some b) by apply lookup_insert_eq.
  rewrite Hb. f_equal.
  assert (Hrefs : seat_refs b = sel) by (apply seat_refs_booking_of; lia).
  apply DB_eq.
  - done.
  - apply map_eq. intros [s e'].
    rewrite lookup_cancelled_seats, Hrefs. cbn [b booking_of event_id].
    cbn [booked seats]. rewrite lookup_mark_seats.
    destruct (decide (e' = e ∧ s ∈ sel)) as [[-> Hs]|Hne].
    + pose proof (elem_of_select_available_seats _ _ _ _ Hs) as Hfree.
      rewrite decide_True; [done|].
      specialize (Hone _ _ _ Hfree). split_and!; eauto. lia.
    + rewrite decide_False; [done|]. intros (? & ? & _). by destruct Hne.
  - cbn. by apply delete_insert_id.
Qed.

Lemma book_then_cancel_restores_witness :
  let resp := {| bresp_booking_id := 3%N; bresp_event_id := 7%N;
                 bresp_user_id := "bob"; bresp_tickets := 1 |} in
  let st' := (post_tickets_book 3%N bob1 demo_store).2 in
  one_based demo_store ∧
  post_tickets_book 3%N bob1 demo_store = (inr resp, st') ∧
  post_tickets_cancel {| booking_id := 3%N |} st' =
  (inr {| cresp_booking_id := 3%N |}, demo_store).
Proof.
  intros resp st'.
  assert (H1 : one_based demo_store)
    by apply reachable_one_based, reachable_run.
  assert (H : post_tickets_book 3%N bob1 demo_store = (inr resp, st'))
    by (vm_compute; reflexivity).
  split; [exact H1|]. split; [exact H|].
  exact (book_then_cancel_restores 3%N bob1 demo_store resp st' H1 H).
Defined.

(** X8.  A cancellation is not repeatable: after a successful cancellation
    the same request is answered 404 and changes nothing. *)
Theorem cancel_twice_not_found cancel st resp st' :
  post_tickets_cancel cancel st = (inr resp, st') →
  post_tickets_cancel cancel st' =
  (inl (HTTPException 404 (BookingNotFound (booking_id cancel))), st').
Proof.
  rewrite !post_tickets_cancel_eq.
  destruct (bookings st !! booking_id cancel) as [b|]; [|done].
  intros [= _ <-]. cbn [cancelled bookings]. by rewrite lookup_delete_eq.
Qed.

Lemma cancel_twice_not_found_witness :
  let cancel := {| booking_id := 1%N |} in
  let st' := (post_tickets_cancel cancel demo_store).2 in
  post_tickets_cancel cancel demo_store =
    (inr {| cresp_booking_id := 1%N |}, st') ∧
  post_tickets_cancel cancel st' =
    (inl (HTTPException 404 (BookingNotFound 1%N)), st').
Proof.
  intros cancel st'.
  assert (H : post_tickets_cancel cancel demo_store =
              (inr {| cresp_booking_id := 1%N |}, st'))
    by (vm_compute; reflexivity).
  split; [exact H|].
  exact (cancel_twice_not_found cancel demo_store _ st' H).
Defined.

(** X9.  A cancellation lowers the seats held by the booking's user for the
    booking's event by the populated slots of the booking, and the seats
    held by any other user or for any other event not at all. *)
Theorem cancel_lowers_held cancel st b resp st' :
  bookings st !! booking_id cancel = Some b →
  post_tickets_cancel cancel st = (inr resp, st') →
  ∀ e u,
    held st' e u =
    held st e u -
    (if decide (event_id b = e ∧ user_id b = u) then slots_held b else 0).
Proof.
  intros Hb. rewrite post_tickets_cancel_eq, Hb. intros [= _ <-] e u.
  rewrite (held_delete st (cancelled (booking_id cancel) b st)
             (booking_id cancel) b e u Hb eq_refl).
  case_decide; lia.
Qed.

Lemma cancel_lowers_held_witness :
  let cancel := {| booking_id := 1%N |} in
  let b := {| event_id := 7%N; seat_id1 := Some 1; seat_id2 := Some 2;
              user_id := "alice" |} in
  let st' := (post_tickets_cancel cancel demo_store).2 in
  bookings demo_store !! 1%N = Some b ∧
  ∀ e u,
    held st' e u =
    held demo_store e u -
    (if decide (7%N = e ∧ "alice" = u) then slots_held b else 0).
Proof.
  intros cancel b st'.
  assert (Hb : bookings demo_store !! booking_id cancel = Some b)
    by (vm_compute; reflexivity).
  assert (H : post_tickets_cancel cancel demo_store =
              (inr {| cresp_booking_id := 1%N |}, st'))
    by (vm_compute; reflexivity).
  split; [exact Hb|].
  exact (cancel_lowers_held cancel demo_store b _ st' Hb H).
Defined.

Lemma NoDup_seat_refs st k b :
  consistent st → bookings st !! k = Some b → NoDup (seat_refs b).
Proof.
  intros C Hk.
  destruct (slots_packed st C k b Hk) as (s1 & H1 & [H2|(s2 & H2 & Hlt)]);
    unfold seat_refs; rewrite H1, H2; cbn.
  - apply NoDup_singleton.
  - apply NoDup_cons. split; [|apply NoDup_singleton].
    intros ->%list_elem_of_singleton. lia.
Qed.

(** X10.  Cancelling makes room: in a reachable store, after a live booking
    is cancelled, its user can book up to as many seats of the same event as
    the booking held, under any booking id that is free. *)
Theorem cancel_then_rebook st k b new_id n :
  reachable st →
  bookings st !! k = Some b →
  0 < n ≤ slots_held b →
  let st' := (post_tickets_cancel {| booking_id := k |} st).2 in
  bookings st' !! new_id = None →
  ∃ resp st'',
    post_tickets_book new_id
      {| req_event_id := Some (event_id b); req_user_id := user_id b;
         tickets := n |} st' = (inr resp, st'').
Proof.
  intros C%reachable_consistent Hk Hn st'. subst st'.
  rewrite post_tickets_cancel_eq. cbn [booking_id]. rewrite Hk. cbn [snd].
  intros Hnew.
  pose proof (consistent_cancelled k b st C Hk) as C'.
  pose proof (slots_held_bounds b) as Hb.
  eexists _, _.
  apply (post_tickets_book_ok new_id _ (cancelled k b st) (event_id b));
    cbn [req_event_id req_user_id tickets]; try done; try lia.
  - destruct (slots_packed st C k b Hk) as (s1 & H1 & _).
    assert (Hs1 : s1 ∈ seat_refs b)
      by (unfold seat_refs; rewrite H1; by left).
    pose proof (refs_booked st C k b s1 Hk Hs1) as Hseat.
    by apply (seats_of_events st C) in Hseat as [? _].
  - rewrite (count_tickets_held _ _ _ (consistent_one_based _ C')).
    pose proof (held_delete st (cancelled k b st) k b (event_id b)
                  (user_id b) Hk eq_refl) as Hd.
    rewrite decide_True in Hd by done.
    pose proof (within_quota st C (event_id b) (user_id b)). lia.
  - assert (length (seat_refs b)
            ≤ length (unbooked_seats (cancelled k b st) (event_id b)))%nat.
    { apply submseteq_length, NoDup_submseteq;
        [by apply (NoDup_seat_refs st k)|].
      intros s Hs. apply elem_of_unbooked_seats.
      pose proof (refs_booked st C k b s Hk Hs) as Hseat.
      rewrite lookup_cancelled_seats, decide_True; [done|].
      pose proof (seats_of_events st C _ _ _ Hseat) as [_ ?].
      split_and!; eauto. lia. }
    unfold slots_held in Hn. lia.
Qed.

Lemma cancel_then_rebook_witness :
  let b := {| event_id := 7%N; seat_id1 := Some 1; seat_id2 := Some 2;
              user_id := "alice" |} in
  let st' := (post_tickets_cancel {| booking_id := 1%N |} demo_store).2 in
  reachable demo_store ∧ bookings demo_store !! 1%N = Some b ∧
  ∃ resp st'', post_tickets_book 1%N alice2 st' = (inr resp, st'').
Proof.
  intros b st'.
  assert (H : reachable demo_store) by apply reachable_run.
  assert (Hb : bookings demo_store !! 1%N = Some b)
    by (vm_compute; reflexivity).
  split; [exact H|]. split; [exact Hb|].
  refine (cancel_then_rebook demo_store 1%N b 1%N 2 H Hb _ _).
  - unfold slots_held, seat_refs. cbn. lia.
  - vm_compute. reflexivity.
Defined.

(** ** A new event *)

Lemma unbooked_seats_initialized new_id st :
  consistent st → events st !! new_id = None →
  unbooked_seats (initialized new_id st) new_id = seqZ 1 100.
Proof.
  intros C Hnew. apply unbooked_seats_ext; [apply StronglySorted_seqZ|].
  intros s. cbn [initialized seats]. rewrite lookup_new_seats. unfold range1.
  case_decide as H; [by destruct H|]. split.
  - intros [[? ?] _]%(seats_of_events st C). congruence.
  - intros Hs. by destruct H.
Qed.

(** X11.  The first booking on a new event: in a reachable store, right
    after a successful [initialize_event] all of 1..100 are unbooked seats of
    the new event, and a successful booking on it is given the seats
    1..[tickets]. *)
Theorem first_booking_gets_first_seats st new_id r st1 k booking resp st2 :
  reachable st →
  post_events_initialize new_id st = (inr r, st1) →
  req_event_id booking = Some new_id →
  post_tickets_book k booking st1 = (inr resp, st2) →
  unbooked_seats st1 new_id = seqZ 1 100 ∧
  ∃ b, bookings st2 !! k = Some b ∧ seat_refs b = seqZ 1 (tickets booking).
Proof.
  intros C%reachable_consistent (Hnew & _ & ->)%post_events_initialize_inr He.
  intros (e & He' & Hev & Hn & Hq & Hlen & Hk & -> & _)%post_tickets_book_inr.
  assert (e = new_id) as -> by congruence.
  pose proof (unbooked_seats_initialized new_id st C Hnew) as Hu.
  split; [done|]. eexists. cbn [booked bookings].
  rewrite lookup_insert_eq. split; [done|].
  rewrite seat_refs_booking_of by lia.
  unfold select_available_seats. rewrite Hu.
  assert (tickets booking = 1 ∨ tickets booking = 2) as [-> | ->] by lia;
    reflexivity.
Qed.

Lemma first_booking_gets_first_seats_witness :
  let r := {| resp_event_id := 8%N; resp_total_tickets := 100 |} in
  let st1 := (post_events_initialize 8%N demo_store).2 in
  let booking := {| req_event_id := Some 8%N; req_user_id := "alice";
                    tickets := 2 |} in
  let resp := {| bresp_booking_id := 5%N; bresp_event_id := 8%N;
                 bresp_user_id := "alice"; bresp_tickets := 2 |} in
  let st2 := (post_tickets_book 5%N booking st1).2 in
  reachable demo_store ∧
  post_events_initialize 8%N demo_store = (inr r, st1) ∧
  post_tickets_book 5%N booking st1 = (inr resp, st2) ∧
  unbooked_seats st1 8%N = seqZ 1 100 ∧
  ∃ b, bookings st2 !! 5%N = Some b ∧ seat_refs b = seqZ 1 2.
Proof.
  intros r st1 booking resp st2.
  assert (H : reachable demo_store) by apply reachable_run.
  assert (H1 : post_events_initialize 8%N demo_store = (inr r, st1))
    by (vm_compute; reflexivity).
  assert (H2 : post_tickets_book 5%N booking st1 = (inr resp, st2))
    by (vm_compute; reflexivity).
  split; [exact H|]. split; [exact H1|]. split; [exact H2|].
  exact (first_booking_gets_first_seats demo_store 8%N r st1 5%N booking
           resp st2 H H1 eq_refl H2).
Defined.

(** ** Seats are conserved *)

Lemma elem_of_event_refs st e s :
  s ∈ event_refs st e ↔ ∃ k, references st k e s.
Proof.
  unfold event_refs, references.
  rewrite list_elem_of_bind. split.
  - intros (b & Hs & [He ([k b'] & -> & Hkb)%list_elem_of_fmap]%list_elem_of_filter).
    apply elem_of_map_to_list in Hkb. exists k, b'. done.
  - intros (k & b & Hk & He & Hs). exists b. split; [done|].
    apply list_elem_of_filter. split; [done|].
    apply list_elem_of_fmap. exists (k, b). split; [done|].
    by apply elem_of_map_to_list.
Qed.

Lemma NoDup_event_refs st e : consistent st → NoDup (event_refs st e).
Proof.
  intros C. unfold event_refs.
  assert (Hkey : ∀ b, b ∈ (map_to_list (bookings st)).*2 →
                      ∃ k, bookings st !! k = Some b).
  { intros b ([k b'] & -> & Hkb%elem_of_map_to_list)%list_elem_of_fmap.
    by exists k. }
  assert (Hs1 : ∀ k b, bookings st !! k = Some b → ∃ s, s ∈ seat_refs b).
  { intros k b Hk. destruct (slots_packed st C k b Hk) as (s1 & H1 & _).
    exists s1. unfold seat_refs. rewrite H1. by left. }
  apply NoDup_bind.
  - intros b1 b2 s [He1 [k1 Hk1]%Hkey]%list_elem_of_filter
      [He2 [k2 Hk2]%Hkey]%list_elem_of_filter Hs1' Hs2'.
    assert (k1 = k2) as ->
      by (apply (refs_disjoint st C k1 k2 b1 b2 s); congruence).
    congruence.
  - intros b [_ [k Hk]%Hkey]%list_elem_of_filter.
    by apply (NoDup_seat_refs st k).
  - apply NoDup_filter, NoDup_fmap_2_strong; [|apply NoDup_map_to_list].
    intros [k1 b1] [k2 b2] Hk1%elem_of_map_to_list Hk2%elem_of_map_to_list.
    cbn. intros <-. destruct (Hs1 k1 b1 Hk1) as [s Hs].
    by rewrite (refs_disjoint st C k1 k2 b1 b1 s).
Qed.

(** X12.  Seats are conserved: in every reachable store and for every
    event, no seat number occurs twice among the populated slots of the
    event's live bookings, and the number of those slots plus the number of
    unbooked seat rows of the event is 100.  So at most 100 seats of an
    event are ever held. *)
Theorem seats_conserved st e :
  reachable st →
  is_Some (events st !! e) →
  NoDup (event_refs st e) ∧
  unbooked_count st e + Z.of_nat (length (event_refs st e)) = 100.
Proof.
  intros Hr [ev Hev]. pose proof (reachable_consistent st Hr) as C.
  pose proof (reachable_dense st Hr) as [Hcap Hrows].
  pose proof (NoDup_event_refs st e C) as Hnd. split; [done|].
  rewrite unbooked_count_length, <- Nat2Z.inj_add, <- length_app.
  assert (Hperm : unbooked_seats st e ++ event_refs st e ≡ₚ seqZ 1 100).
  { apply NoDup_Permutation.
    - apply NoDup_app. split_and!; [apply NoDup_unbooked_seats| |done].
      intros s Hfree%elem_of_unbooked_seats
        (k & b & Hk & <- & Hs)%elem_of_event_refs.
      pose proof (refs_booked st C k b s Hk Hs). congruence.
    - apply NoDup_seqZ.
    - intros s. rewrite elem_of_app, elem_of_unbooked_seats,
        elem_of_event_refs, elem_of_seqZ. split.
      + intros [Hs|(k & b & Hk & <- & Hs)].
        * apply (seats_of_events st C) in Hs. lia.
        * pose proof (refs_booked st C k b s Hk Hs) as Hseat.
          apply (seats_of_events st C) in Hseat. lia.
      + intros Hs.
        assert (is_Some (seats st !! (s, e))) as [[] Hv].
        { apply Hrows. exists ev. split; [done|].
          rewrite (Hcap e ev Hev). lia. }
        * right. destruct (booked_has_ref st C s e Hv) as (k & b & ?).
          by exists k, b.
        * by left. }
  rewrite Hperm, length_seqZ. lia.
Qed.

Lemma seats_conserved_witness :
  reachable demo_store ∧
  NoDup (event_refs demo_store 7%N) ∧
  unbooked_count demo_store 7%N
    + Z.of_nat (length (event_refs demo_store 7%N)) = 100.
Proof.
  assert (H : reachable demo_store) by apply reachable_run.
  split; [exact H|].
  refine (seats_conserved demo_store 7%N H _).
  vm_compute. eauto.
Defined.

Example demo_event_refs : event_refs demo_store 7%N ≡ₚ [1; 2; 3].
Proof.
  vm_compute.
  change ([3; 1; 2] ≡ₚ [1; 2; 3]). by rewrite <- (Permutation_cons_append [1; 2] 3).
Qed.

(** ** Bookings over a history *)

(** X13.  A booking lasts until it is cancelled: a live booking is still
    there, unchanged, after any request other than its own cancellation, and
    in a reachable store the seats it names are still booked. *)
Theorem booking_survives st r k b :
  bookings st !! k = Some b →
  r ≠ CancelBooking {| booking_id := k |} →
  bookings (step st r) !! k = Some b ∧
  (reachable st →
   ∀ s, s ∈ seat_refs b → seats (step st r) !! (s, event_id b) = Some true).
Proof.
  intros Hk Hr.
  assert (Hk' : bookings (step st r) !! k = Some b).
  { destruct (step_cases st r)
      as [->|[(i & _ & _ & ->)|[(i & bk & e' & _ & _ & _ & _ & _ & Hi & ->)
         |([c] & b' & -> & _ & ->)]]]; try done.
    - cbn. rewrite lookup_insert_ne; [done|]. congruence.
    - cbn. rewrite lookup_delete_ne; [done|]. congruence. }
  split; [done|]. intros C%reachable_consistent s Hs.
  apply (refs_booked _ (step_consistent st r C) k b s Hk' Hs).
Qed.

Lemma booking_survives_witness :
  let b := {| event_id := 7%N; seat_id1 := Some 1; seat_id2 := Some 2;
              user_id := "alice" |} in
  let r := CancelBooking {| booking_id := 2%N |} in
  bookings demo_store !! 1%N = Some b ∧
  bookings (step demo_store r) !! 1%N = Some b ∧
  (reachable demo_store →
   ∀ s, s ∈ seat_refs b → seats (step demo_store r) !! (s, 7%N) = Some true).
Proof.
  intros b r.
  assert (Hb : bookings demo_store !! 1%N = Some b)
    by (vm_compute; reflexivity).
  split; [exact Hb|].
  refine (booking_survives demo_store r 1%N b Hb _). discriminate.
Defined.
